(** * check_add_tag.py: additive tag reconciliation over profiles, services
      and resources

    A shallow embedding of [check_add_tag.py].  The script is a client of a
    remote tagging API; the remote side is an abstract, stateful [Provider],
    and the script itself is written in a small monad that threads the
    provider's state, may raise a Python exception, and records every line it
    prints and every API call it issues, in order. *)

From stdpp Require Import gmap strings list fin_maps.

Local Open Scope string_scope.
Local Open Scope list_scope.

(** ** Exceptions and results *)

(** The exceptions the script can meet.  All of them derive from Python's
    [Exception]; [ClientError] stands for every class the script does not
    name ([botocore.exceptions.ClientError], [EndpointConnectionError], ...). *)
Inductive exn : Type :=
| ProfileNotFound (profile : string)
| NoCredentialsError
| KeyError (key : string)
| ClientError (msg : string).

Inductive result (A : Type) : Type :=
| Ok (a : A)
| Raise (e : exn).
Arguments Ok {A} a.
Arguments Raise {A} e.

(** ** Data returned by the tagging API

    The responses are Python dicts; a key the script reads with [d["k"]] or
    [d.get("k", default)] or tests with ["k" in d] may be absent, hence the
    options. *)
Record tag : Type := { Key : option string; Value : option string }.

Record resource_tag_mapping : Type :=
  { ResourceARN : option string; Tags : option (list tag) }.

Record get_resources_output : Type :=
  { ResourceTagMappingList : option (list resource_tag_mapping) }.

(** [d[k]] on a dict: the value, or [KeyError(k)]. *)
Definition getitem {A} (k : string) (field : option A) : result A :=
  match field with
  | Some a => Ok a
  | None => Raise (KeyError k)
  end.

(** ** Constants (lines 6-12) *)

(** A dict literal iterates in insertion order, so the required tags are kept
    as the ordered list of their items; the keys are distinct. *)
Definition REQUIRED_TAGS : list (string * string) :=
  [("Environment", "Production"); ("Owner", "CloudEng")].

Definition TAGGABLE_SERVICES : list string :=
  ["ec2"; "s3"; "rds"; "lambda"; "dynamodb"; "sns"; "sqs"; "elb";
   "autoscaling"; "cloudwatch"; "redshift"; "cloudfront"; "eks"; "ecr";
   "kinesis"].

(** ** The pure part of [check_and_add_tags] *)

(** Line 42, [existing_tags[tag["Key"]] = tag["Value"]]: Python evaluates the
    right-hand side before the subscript of the target. *)
Definition read_tag (existing_tags : gmap string string) (t : tag)
  : result (gmap string string) :=
  match getitem "Value" (Value t) with
  | Raise e => Raise e
  | Ok v =>
      match getitem "Key" (Key t) with
      | Raise e => Raise e
      | Ok k => Ok (<[k := v]> existing_tags)
      end
  end.

(** Line 41, the loop over [tag_mapping.get("Tags", [])]. *)
Fixpoint read_tags (existing_tags : gmap string string) (ts : list tag)
  : result (gmap string string) :=
  match ts with
  | [] => Ok existing_tags
  | t :: ts' =>
      match read_tag existing_tags t with
      | Raise e => Raise e
      | Ok existing_tags' => read_tags existing_tags' ts'
      end
  end.

(** Line 40, the loop over [tag_response["ResourceTagMappingList"]]. *)
Fixpoint read_mappings (existing_tags : gmap string string)
    (ms : list resource_tag_mapping) : result (gmap string string) :=
  match ms with
  | [] => Ok existing_tags
  | m :: ms' =>
      match read_tags existing_tags (default [] (Tags m)) with
      | Raise e => Raise e
      | Ok existing_tags' => read_mappings existing_tags' ms'
      end
  end.

(** Lines 37-42: the dict [existing_tags] built from a [get_resources]
    response. *)
Definition existing_tags_of (tag_response : get_resources_output)
  : result (gmap string string) :=
  match ResourceTagMappingList tag_response with
  | None => Ok ∅
  | Some ms => read_mappings ∅ ms
  end.

(** A tag that has both of its keys. *)
Definition pair_tag (kv : string * string) : tag :=
  {| Key := Some kv.1; Value := Some kv.2 |}.

(** The tags of a response, over all its mappings, in the order lines 40-41
    visit them. *)
Definition all_tags (tag_response : get_resources_output) : list tag :=
  default [] (ResourceTagMappingList tag_response)
    ≫= (λ tag_mapping, default [] (Tags tag_mapping)).

(** Lines 45-49, over any required mapping: the items whose key is not in
    [existing_tags], in the order of the required mapping.  A
    [{"Key": key, "Value": value}] dict is the pair [(key, value)]. *)
Definition missing_of (required : list (string * string))
    (existing_tags : gmap string string) : list (string * string) :=
  filter (λ kv, existing_tags !! kv.1 = None) required.

Definition missing_tags (existing_tags : gmap string string)
  : list (string * string) :=
  missing_of REQUIRED_TAGS existing_tags.

(** Line 53, the dict comprehension [{t["Key"]: t["Value"] for t in
    missing_tags}]: entries are inserted left to right. *)
Definition tags_dict (missing : list (string * string)) : gmap string string :=
  foldl (λ d t, <[t.1 := t.2]> d) ∅ missing.

(** What the remote write endpoint does to a resource's tags: it applies the
    written mapping key by key, a written key taking the written value. *)
Definition apply_tags (written existing : gmap string string)
  : gmap string string :=
  written ∪ existing.

(** ** What the script does: printed lines and API calls *)

Inductive line : Type :=
| ErrorFetchingResources (service_name : string) (e : exn)        (* line 30 *)
| AddedMissingTags (missing : list (string * string)) (resource_arn : string)
                                                                  (* line 54 *)
| AlreadyHasAllTags (resource_arn : string)                       (* line 56 *)
| ErrorProcessingResource (resource_arn : string) (e : exn)       (* line 59 *)
| SwitchingToProfile (profile_name : string)                      (* line 64 *)
| CheckingResources (service : string)                            (* line 69 *)
| ProfileNotFoundLine (profile_name : string)                     (* line 76 *)
| NoCredentialsLine (profile_name : string)                       (* line 78 *)
| UnexpectedErrorLine (profile_name : string) (e : exn)           (* line 80 *)
| NoProfilesFound.                                                (* line 86 *)

(** Sessions and clients are named by the profile they were made for. *)
Inductive api_call : Type :=
| AvailableProfiles                                               (* line 17 *)
| NewSession (profile_name : string)                              (* line 65 *)
| NewClient (profile_name : string)                               (* line 66 *)
| Paginate (client : string)                                      (* lines 22, 25 *)
| GetResources (client resource_arn : string)                     (* line 38 *)
| TagResources (client resource_arn : string) (tags : gmap string string).
                                                                  (* line 53 *)

Inductive event : Type :=
| Print (l : line)
| Call (c : api_call).

(** ** The remote side

    Every operation may fail and may change the provider's state.  The
    paginator call carries no service: line 25 passes [ResourcesPerPage=50]
    and nothing else. *)
Class Provider (W : Type) : Type := {
  available_profiles : W → result (list string) * W;
  new_session : string → W → result string * W;
  new_client : string → W → result string * W;
  paginate : string → W → result (list get_resources_output) * W;
  get_resources : string → string → W → result get_resources_output * W;
  tag_resources : string → string → gmap string string → W → result unit * W
}.

(** ** The monad of the script *)

Record outcome (W A : Type) : Type :=
  Outcome { res : result A; world : W; trace : list event }.
Arguments Outcome {W A} res world trace.
Arguments res {W A} o.
Arguments world {W A} o.
Arguments trace {W A} o.

Definition M (W A : Type) : Type := W → outcome W A.

Definition ret {W A} (a : A) : M W A := λ w, Outcome (Ok a) w [].

Definition raise {W A} (e : exn) : M W A := λ w, Outcome (Raise e) w [].

(** Sequencing of two runs: the second one's result and state, after the
    first one's trace. *)
Definition and_then {W A B} (o : outcome W A) (o' : outcome W B)
  : outcome W B :=
  Outcome (res o') (world o') (trace o ++ trace o').

Definition bind {W A B} (m : M W A) (f : A → M W B) : M W B := λ w,
  let o := m w in
  match res o with
  | Ok a => and_then o (f a (world o))
  | Raise e => Outcome (Raise e) (world o) (trace o)
  end.

(** [try: m except Exception as e: h e]. *)
Definition try_except {W A} (m : M W A) (h : exn → M W A) : M W A := λ w,
  let o := m w in
  match res o with
  | Ok a => o
  | Raise e => and_then o (h e (world o))
  end.

Definition lift {W A} (r : result A) : M W A := λ w, Outcome r w [].

Definition print {W} (l : line) : M W unit := λ w, Outcome (Ok tt) w [Print l].

Definition call {W A} (c : api_call) (op : W → result A * W) : M W A := λ w,
  let rw := op w in Outcome rw.1 rw.2 [Call c].

Notation "x <- m ;; k" := (bind m (λ x, k))
  (at level 100, m at next level, right associativity).
Notation "m ;;; k" := (bind m (λ _, k))
  (at level 100, right associativity).

(** [for x in xs: body x]; an exception leaves the loop. *)
Fixpoint for_each {W A} (xs : list A) (body : A → M W unit) : M W unit :=
  match xs with
  | [] => ret tt
  | x :: xs' => body x ;;; for_each xs' body
  end.

(** ** The script *)

Section Script.
Context {W : Type} `{Provider W}.

(** Lines 14-17. *)
Definition get_aws_profiles : M W (list string) :=
  call AvailableProfiles available_profiles.

(** Lines 23-26: [resources.extend(page.get("ResourceTagMappingList", []))]
    over the pages. *)
Definition extend_pages (pages : list get_resources_output)
  : list resource_tag_mapping :=
  foldl (λ resources page,
           resources ++ default [] (ResourceTagMappingList page)) [] pages.

(** Lines 22-28, the [try] block of [get_resources_with_tags]. *)
Definition get_resources_with_tags_body (client : string)
  : M W (list resource_tag_mapping) :=
  pages <- call (Paginate client) (paginate client) ;;
  ret (extend_pages pages).

(** Lines 19-31.  [service_name] reaches the error message only. *)
Definition get_resources_with_tags (client service_name : string)
  : M W (list resource_tag_mapping) :=
  try_except
    (get_resources_with_tags_body client)
    (λ e, print (ErrorFetchingResources service_name e) ;;; ret []).

(** Lines 36-56, the [try] block of [check_and_add_tags]. *)
Definition check_and_add_tags_body (client resource_arn : string)
  : M W unit :=
  tag_response <- call (GetResources client resource_arn)
                       (get_resources client resource_arn) ;;
  existing_tags <- lift (existing_tags_of tag_response) ;;
  let missing := missing_tags existing_tags in
  match missing with
  | _ :: _ =>
      call (TagResources client resource_arn (tags_dict missing))
           (tag_resources client resource_arn (tags_dict missing)) ;;;
      print (AddedMissingTags missing resource_arn)
  | [] => print (AlreadyHasAllTags resource_arn)
  end.

(** Lines 33-59. *)
Definition check_and_add_tags (client resource_arn : string) : M W unit :=
  try_except
    (check_and_add_tags_body client resource_arn)
    (λ e, print (ErrorProcessingResource resource_arn e)).

(** The tag mapping [check_and_add_tags] finds for a resource in a given
    state of the provider: lines 37-42 on the answer to the read of line 38. *)
Definition current_tags (client resource_arn : string) (w : W)
  : result (gmap string string) :=
  match (get_resources client resource_arn w).1 with
  | Ok tag_response => existing_tags_of tag_response
  | Raise e => Raise e
  end.

(** Lines 72-73, one round of the loop over the resources. *)
Definition resource_round (tag_client : string)
    (resource : resource_tag_mapping) : M W unit :=
  resource_arn <- lift (getitem "ResourceARN" (ResourceARN resource)) ;;
  check_and_add_tags tag_client resource_arn.

(** Lines 71-73, the loop over the resources of one service. *)
Definition resource_loop (tag_client : string)
    (resources : list resource_tag_mapping) : M W unit :=
  for_each resources (resource_round tag_client).

(** Lines 69-73, one round of the loop over the services. *)
Definition service_round (tag_client service : string) : M W unit :=
  print (CheckingResources service) ;;;
  resources <- get_resources_with_tags tag_client service ;;
  resource_loop tag_client resources.

(** Lines 68-73, the loop over the services of one profile. *)
Definition service_loop (tag_client : string) (services : list string)
  : M W unit :=
  for_each services (service_round tag_client).

(** The listings of a provider are well formed when every resource they
    return carries its [ResourceARN]. *)
Definition listings_well_formed : Prop :=
  ∀ client w pages w',
    paginate client w = (Ok pages, w') →
    Forall (λ resource, is_Some (ResourceARN resource)) (extend_pages pages).

(** Lines 64-73, the [try] block of [process_aws_profile]. *)
Definition process_aws_profile_body (profile_name : string) : M W unit :=
  print (SwitchingToProfile profile_name) ;;;
  session <- call (NewSession profile_name) (new_session profile_name) ;;
  tag_client <- call (NewClient session) (new_client session) ;;
  service_loop tag_client TAGGABLE_SERVICES.

(** Lines 75-80: the three handlers are tried in order, the last one taking
    every exception the first two do not. *)
Definition profile_error_line (profile_name : string) (e : exn) : line :=
  match e with
  | ProfileNotFound _ => ProfileNotFoundLine profile_name
  | NoCredentialsError => NoCredentialsLine profile_name
  | _ => UnexpectedErrorLine profile_name e
  end.

(** Lines 61-80. *)
Definition process_aws_profile (profile_name : string) : M W unit :=
  try_except
    (process_aws_profile_body profile_name)
    (λ e, print (profile_error_line profile_name e)).

(** Lines 82-89. *)
Definition main : M W unit :=
  profiles <- get_aws_profiles ;;
  match profiles with
  | [] => print NoProfilesFound
  | _ :: _ => for_each profiles process_aws_profile
  end.

(** The status the interpreter exits with: 0 when the script runs to its end,
    1 when an exception leaves it. *)
Definition exit_status (o : outcome W unit) : nat :=
  match res o with Ok _ => 0 | Raise _ => 1 end.

End Script.

(** ** Reading a trace *)

(** The identifiers a listing carries. *)
Definition arns (resources : list resource_tag_mapping) : list string :=
  omap ResourceARN resources.

(** The identifiers a listing returned. *)
Definition listed {W} (o : outcome W (list resource_tag_mapping))
  : list string :=
  match res o with
  | Ok resources => arns resources
  | Raise _ => []
  end.

(** The events [check_and_add_tags] can leave. *)
Definition resource_level (ev : event) : bool :=
  match ev with
  | Call (GetResources _ _) | Call (TagResources _ _ _)
  | Print (AddedMissingTags _ _) | Print (AlreadyHasAllTags _)
  | Print (ErrorProcessingResource _ _) => true
  | _ => false
  end.

(** The events one pass over the services of a profile can leave. *)
Definition service_level (ev : event) : bool :=
  match ev with
  | Print (CheckingResources _) | Call (Paginate _)
  | Print (ErrorFetchingResources _ _) => true
  | _ => resource_level ev
  end.

Definition write_calls (t : list event) : list (string * string * gmap string string) :=
  omap (λ ev, match ev with
              | Call (TagResources c a tags) => Some (c, a, tags)
              | _ => None
              end) t.

Definition read_calls (t : list event) : list (string * string) :=
  omap (λ ev, match ev with
              | Call (GetResources c a) => Some (c, a)
              | _ => None
              end) t.

Definition listing_calls (t : list event) : list string :=
  omap (λ ev, match ev with
              | Call (Paginate c) => Some c
              | _ => None
              end) t.

Definition services_checked (t : list event) : list string :=
  omap (λ ev, match ev with
              | Print (CheckingResources s) => Some s
              | _ => None
              end) t.

Definition profiles_entered (t : list event) : list string :=
  omap (λ ev, match ev with
              | Print (SwitchingToProfile p) => Some p
              | _ => None
              end) t.

(** No write without the read of the same resource, by the same client,
    right before it: [prev] is the read the last event made, if it was one. *)
Fixpoint well_preceded (prev : option (string * string)) (t : list event)
  : bool :=
  match t with
  | [] => true
  | Call (TagResources c a _) :: t' =>
      bool_decide (prev = Some (c, a)) && well_preceded None t'
  | Call (GetResources c a) :: t' => well_preceded (Some (c, a)) t'
  | _ :: t' => well_preceded None t'
  end.

(** The resource-level errors logged (line 59). *)
Definition resource_errors (t : list event) : list (string * exn) :=
  omap (λ ev, match ev with
              | Print (ErrorProcessingResource a e) => Some (a, e)
              | _ => None
              end) t.

(** A resource's tags once the writes of a trace have been applied to it. *)
Definition tags_after (existing : gmap string string) (t : list event)
  : gmap string string :=
  foldl (λ tags write, apply_tags write.2 tags) existing (write_calls t).

Definition printed (t : list event) : list line :=
  omap (λ ev, match ev with Print l => Some l | Call _ => None end) t.

(** ** A simulated provider

    One account whose inventory is a list of resources with their tags, with
    switches that make chosen calls fail.  It serves as the concrete provider
    of the examples. *)

Module Sim.

Record account : Type := Account {
  configured : list string;          (* the profiles of the local store *)
  unknown : list string;             (* profiles no session can be made for *)
  locked : list string;              (* profiles without credentials *)
  inventory : list (string * gmap string string);
                                     (* ARN and tags, in listing order *)
  listing_plan : list bool;          (* per listing to come: does it fail? *)
  unreadable : list string;          (* ARNs whose tag read fails *)
  unwritable : list string           (* ARNs whose tag write fails *)
}.

Definition tag_list (tags : gmap string string) : list tag :=
  (λ kv, {| Key := Some kv.1; Value := Some kv.2 |}) <$> map_to_list tags.

Definition mapping_of (entry : string * gmap string string)
  : resource_tag_mapping :=
  {| ResourceARN := Some entry.1; Tags := Some (tag_list entry.2) |}.

Definition set_plan (plan : list bool) (a : account) : account :=
  Account (configured a) (unknown a) (locked a) (inventory a) plan
          (unreadable a) (unwritable a).

Definition set_inventory (inv : list (string * gmap string string))
    (a : account) : account :=
  Account (configured a) (unknown a) (locked a) inv (listing_plan a)
          (unreadable a) (unwritable a).

Definition sim_available_profiles (a : account)
  : result (list string) * account :=
  (Ok (configured a), a).

Definition sim_new_session (profile_name : string) (a : account)
  : result string * account :=
  if bool_decide (profile_name ∈ unknown a)
  then (Raise (ProfileNotFound profile_name), a)
  else (Ok profile_name, a).

Definition sim_new_client (session : string) (a : account)
  : result string * account :=
  if bool_decide (session ∈ locked a)
  then (Raise NoCredentialsError, a)
  else (Ok session, a).

(** Every listing returns the whole inventory, as one page. *)
Definition sim_paginate (client : string) (a : account)
  : result (list get_resources_output) * account :=
  match listing_plan a with
  | true :: plan => (Raise (ClientError "ThrottlingException"), set_plan plan a)
  | false :: plan =>
      (Ok [{| ResourceTagMappingList := Some (mapping_of <$> inventory a) |}],
       set_plan plan a)
  | [] =>
      (Ok [{| ResourceTagMappingList := Some (mapping_of <$> inventory a) |}],
       a)
  end.

Definition sim_get_resources (client resource_arn : string) (a : account)
  : result get_resources_output * account :=
  if bool_decide (resource_arn ∈ unreadable a)
  then (Raise (ClientError "AccessDeniedException"), a)
  else (Ok {| ResourceTagMappingList :=
                Some (mapping_of <$>
                        filter (λ entry, entry.1 = resource_arn) (inventory a))
           |}, a).

Definition sim_tag_resources (client resource_arn : string)
    (tags : gmap string string) (a : account) : result unit * account :=
  if bool_decide (resource_arn ∈ unwritable a)
  then (Raise (ClientError "InvalidParameterException"), a)
  else (Ok tt,
        set_inventory
          ((λ entry, if bool_decide (entry.1 = resource_arn)
                     then (entry.1, apply_tags tags entry.2) else entry)
             <$> inventory a) a).

#[export] Instance sim_provider : Provider account := {
  available_profiles := sim_available_profiles;
  new_session := sim_new_session;
  new_client := sim_new_client;
  paginate := sim_paginate;
  get_resources := sim_get_resources;
  tag_resources := sim_tag_resources
}.

Definition instance_arn : string :=
  "arn:aws:ec2:us-east-1:111122223333:instance/i-0abc".
Definition bucket_arn : string := "arn:aws:s3:::reports".
Definition queue_arn : string := "arn:aws:sqs:us-east-1:111122223333:jobs".

(** An instance that lacks [Owner], a bucket that has both required tags, a
    queue with an [Owner] of its own and no [Environment]. *)
Definition demo : account :=
  {| configured := ["default"; "audit"];
     unknown := [];
     locked := [];
     inventory :=
       [(instance_arn, {["Environment" := "Production"]});
        (bucket_arn, <["Environment" := "Production"]> {["Owner" := "CloudEng"]});
        (queue_arn, {["Owner" := "Payments"]})];
     listing_plan := [];
     unreadable := [];
     unwritable := [] |}.

(** An account with no profile configured. *)
Definition unconfigured : account :=
  {| configured := [];
     unknown := [];
     locked := [];
     inventory := inventory demo;
     listing_plan := [];
     unreadable := [];
     unwritable := [] |}.

(** [demo] with the tags of the instance unreadable and those of the queue
    unwritable. *)
Definition flaky : account :=
  {| configured := configured demo;
     unknown := [];
     locked := [];
     inventory := inventory demo;
     listing_plan := [];
     unreadable := [instance_arn];
     unwritable := [queue_arn] |}.

(** [demo] with a first listing that fails and a profile nobody knows. *)
Definition throttled : account :=
  {| configured := ["default"; "ghost"; "audit"];
     unknown := ["ghost"];
     locked := [];
     inventory := inventory demo;
     listing_plan := [true];
     unreadable := [];
     unwritable := [] |}.

End Sim.

(** ** A provider with canned answers

    The profile store answers [canned_profiles], every listing returns
    [canned_pages] and every tag read [canned_response]; sessions, clients
    and writes succeed.  It gives the answers [Sim] cannot: a failing profile
    store and ill-formed dicts. *)

Module Canned.

Record canned : Type := {
  canned_profiles : result (list string);
  canned_pages : list get_resources_output;
  canned_response : get_resources_output
}.

#[export] Instance canned_provider : Provider canned := {
  available_profiles a := (canned_profiles a, a);
  new_session profile_name a := (Ok profile_name, a);
  new_client session a := (Ok session, a);
  paginate client a := (Ok (canned_pages a), a);
  get_resources client resource_arn a := (Ok (canned_response a), a);
  tag_resources client resource_arn tags a := (Ok tt, a)
}.

(** A profile store that cannot be read. *)
Definition broken_store : canned :=
  {| canned_profiles := Raise (ClientError "ConfigParseError");
     canned_pages := [];
     canned_response := {| ResourceTagMappingList := None |} |}.

Definition logs_arn : string := "arn:aws:s3:::logs".
Definition late_arn : string := "arn:aws:s3:::late".

(** One profile; listings of three resources, the second of them without
    ["ResourceARN"]; tag reads that find nothing. *)
Definition ill_formed : canned :=
  {| canned_profiles := Ok ["default"];
     canned_pages :=
       [{| ResourceTagMappingList :=
             Some [{| ResourceARN := Some logs_arn; Tags := None |};
                   {| ResourceARN := None; Tags := Some [] |};
                   {| ResourceARN := Some late_arn; Tags := None |}] |}];
     canned_response := {| ResourceTagMappingList := None |} |}.

End Canned.

(** * Properties *)

(** ** The diff against a required mapping *)

Section Reconcile.
Variable required : list (string * string).
Hypothesis required_keys_distinct : NoDup required.*1.

Implicit Types existing : gmap string string.

Lemma elem_of_missing_of existing kv :
  kv ∈ missing_of required existing ↔ kv ∈ required ∧ existing !! kv.1 = None.
Proof. unfold missing_of. rewrite list_elem_of_filter. tauto. Qed.

Lemma missing_of_nil existing :
  missing_of required existing = [] ↔
  ∀ kv, kv ∈ required → is_Some (existing !! kv.1).
Proof.
  split.
  - intros Hnil kv Hin.
    destruct (existing !! kv.1) eqn:Hk; [by eexists |].
    assert (Hm : kv ∈ missing_of required existing)
      by (by apply elem_of_missing_of).
    rewrite Hnil in Hm. by apply elem_of_nil in Hm.
  - intros Hall. apply elem_of_nil_inv. intros kv Hm.
    apply elem_of_missing_of in Hm as [Hin Hnone].
    destruct (Hall kv Hin) as [v Hv]. congruence.
Qed.

Lemma missing_of_keys_distinct existing :
  NoDup (missing_of required existing).*1.
Proof.
  unfold missing_of. clear -required_keys_distinct.
  induction required as [|kv l IH]; [constructor |].
  inversion required_keys_distinct as [|? ? Hnotin Hnd]; subst.
  rewrite filter_cons. case_decide; [| by apply IH].
  rewrite fmap_cons. constructor; [| by apply IH].
  intros Hin. apply Hnotin.
  apply list_elem_of_fmap in Hin as [kv' [-> Hin]].
  apply list_elem_of_filter in Hin as [_ Hin].
  apply list_elem_of_fmap. by exists kv'.
Qed.

End Reconcile.

Lemma tags_dict_snoc (l : list (string * string)) kv :
  tags_dict (l ++ [kv]) = <[kv.1 := kv.2]> (tags_dict l).
Proof. unfold tags_dict. by rewrite foldl_snoc. Qed.

Lemma lookup_tags_dict_None (l : list (string * string)) k :
  tags_dict l !! k = None ↔ k ∉ l.*1.
Proof.
  induction l as [|kv l IH] using rev_ind.
  - split; [intros _; apply not_elem_of_nil | intros _; apply lookup_empty].
  - rewrite tags_dict_snoc, fmap_app, elem_of_app, lookup_insert_None, IH.
    simpl. rewrite list_elem_of_singleton. intuition congruence.
Qed.

Lemma lookup_tags_dict_Some (l : list (string * string)) k v :
  NoDup l.*1 → tags_dict l !! k = Some v ↔ (k, v) ∈ l.
Proof.
  induction l as [|kv l IH] using rev_ind; intros Hnd.
  - split; [unfold tags_dict; simpl; intros Hl; by rewrite lookup_empty in Hl |].
    intros Hin. by apply elem_of_nil in Hin.
  - rewrite fmap_app in Hnd. apply NoDup_app in Hnd as (Hnd & Hfresh & _).
    rewrite tags_dict_snoc, elem_of_app, list_elem_of_singleton.
    destruct kv as [k' v']. simpl in *.
    destruct (decide (k' = k)) as [-> | Hne].
    + rewrite lookup_insert_eq. split.
      * intros [= ->]. by right.
      * intros [Hin | Heq]; [| by inversion Heq].
        exfalso. apply (Hfresh k); [| apply list_elem_of_here].
        apply list_elem_of_fmap. by exists (k, v).
    + rewrite lookup_insert_ne by done. rewrite (IH Hnd).
      split; [by left | intros [? | Heq]; [done | inversion Heq; congruence]].
Qed.

Section Written.
Variable required : list (string * string).
Hypothesis required_keys_distinct : NoDup required.*1.

Implicit Types existing : gmap string string.

(** The written mapping is exactly the missing part of the required one. *)
Lemma lookup_written existing k v :
  tags_dict (missing_of required existing) !! k = Some v ↔
  (k, v) ∈ required ∧ existing !! k = None.
Proof.
  rewrite lookup_tags_dict_Some
    by (by apply missing_of_keys_distinct).
  by rewrite elem_of_missing_of.
Qed.

Lemma written_avoids_existing existing k :
  is_Some (existing !! k) →
  tags_dict (missing_of required existing) !! k = None.
Proof.
  intros [v Hv]. apply lookup_tags_dict_None. intros Hin.
  apply list_elem_of_fmap in Hin as [kv [-> Hin]].
  apply elem_of_missing_of in Hin as [_ Hnone]. congruence.
Qed.

Lemma apply_written_keeps existing k :
  is_Some (existing !! k) →
  apply_tags (tags_dict (missing_of required existing)) existing !! k
  = existing !! k.
Proof.
  intros Hk. unfold apply_tags.
  by rewrite lookup_union_r by (by apply written_avoids_existing).
Qed.

Lemma apply_written_covers existing kv :
  kv ∈ required →
  is_Some (apply_tags (tags_dict (missing_of required existing)) existing
           !! kv.1).
Proof.
  intros Hin. destruct (existing !! kv.1) eqn:Hk.
  - rewrite apply_written_keeps by (by eexists). rewrite Hk. by eexists.
  - exists kv.2. unfold apply_tags. apply lookup_union_Some_l.
    apply lookup_written. by destruct kv.
Qed.

Lemma missing_of_after_write existing :
  missing_of required
    (apply_tags (tags_dict (missing_of required existing)) existing) = [].
Proof. apply missing_of_nil. intros kv Hin. by apply apply_written_covers. Qed.

End Written.

Lemma REQUIRED_TAGS_keys_distinct : NoDup REQUIRED_TAGS.*1.
Proof.
  unfold REQUIRED_TAGS. simpl. repeat constructor.
  - rewrite list_elem_of_singleton. discriminate.
  - apply not_elem_of_nil.
Qed.

(** ** The five ways [check_and_add_tags] ends *)

Section Reconciliation.
Context {W : Type} `{Provider W}.

Implicit Types (w : W) (client resource_arn : string).

Inductive reconciled client resource_arn w : outcome W unit → Prop :=
| read_failed e w1 :
    get_resources client resource_arn w = (Raise e, w1) →
    reconciled client resource_arn w
      (Outcome (Ok tt) w1
         [Call (GetResources client resource_arn);
          Print (ErrorProcessingResource resource_arn e)])
| response_malformed tag_response e w1 :
    get_resources client resource_arn w = (Ok tag_response, w1) →
    existing_tags_of tag_response = Raise e →
    reconciled client resource_arn w
      (Outcome (Ok tt) w1
         [Call (GetResources client resource_arn);
          Print (ErrorProcessingResource resource_arn e)])
| nothing_missing tag_response existing_tags w1 :
    get_resources client resource_arn w = (Ok tag_response, w1) →
    existing_tags_of tag_response = Ok existing_tags →
    missing_tags existing_tags = [] →
    reconciled client resource_arn w
      (Outcome (Ok tt) w1
         [Call (GetResources client resource_arn);
          Print (AlreadyHasAllTags resource_arn)])
| missing_written tag_response existing_tags w1 u w2 :
    get_resources client resource_arn w = (Ok tag_response, w1) →
    existing_tags_of tag_response = Ok existing_tags →
    missing_tags existing_tags ≠ [] →
    tag_resources client resource_arn
      (tags_dict (missing_tags existing_tags)) w1 = (Ok u, w2) →
    reconciled client resource_arn w
      (Outcome (Ok tt) w2
         [Call (GetResources client resource_arn);
          Call (TagResources client resource_arn
                  (tags_dict (missing_tags existing_tags)));
          Print (AddedMissingTags (missing_tags existing_tags) resource_arn)])
| write_failed tag_response existing_tags w1 e w2 :
    get_resources client resource_arn w = (Ok tag_response, w1) →
    existing_tags_of tag_response = Ok existing_tags →
    missing_tags existing_tags ≠ [] →
    tag_resources client resource_arn
      (tags_dict (missing_tags existing_tags)) w1 = (Raise e, w2) →
    reconciled client resource_arn w
      (Outcome (Ok tt) w2
         [Call (GetResources client resource_arn);
          Call (TagResources client resource_arn
                  (tags_dict (missing_tags existing_tags)));
          Print (ErrorProcessingResource resource_arn e)]).

Lemma check_and_add_tags_reconciled client resource_arn w :
  reconciled client resource_arn w (check_and_add_tags client resource_arn w).
Proof.
  unfold check_and_add_tags, check_and_add_tags_body, try_except, bind, call,
    lift, print. simpl.
  destruct (get_resources client resource_arn w) as [[tag_response | e] w1]
    eqn:Hread; simpl.
  - destruct (existing_tags_of tag_response) as [existing_tags | e] eqn:Hex;
      simpl.
    + destruct (missing_tags existing_tags) as [| kv missing] eqn:Hmiss; simpl.
      * by eapply nothing_missing.
      * destruct (tag_resources client resource_arn
                    (tags_dict (kv :: missing)) w1) as [[u | e] w2] eqn:Hwrite;
          simpl; rewrite <- Hmiss in *.
        -- eapply missing_written; eauto. by rewrite Hmiss.
        -- eapply write_failed; eauto. by rewrite Hmiss.
    + by eapply response_malformed.
  - by eapply read_failed.
Qed.

(** Whatever happens inside, [check_and_add_tags] returns normally. *)
Lemma check_and_add_tags_returns client resource_arn w :
  res (check_and_add_tags client resource_arn w) = Ok tt.
Proof. by destruct (check_and_add_tags_reconciled client resource_arn w). Qed.

(** Each invocation reads the tags of its resource exactly once, first. *)
Lemma check_and_add_tags_reads client resource_arn w :
  read_calls (trace (check_and_add_tags client resource_arn w))
  = [(client, resource_arn)].
Proof. by destruct (check_and_add_tags_reconciled client resource_arn w). Qed.

End Reconciliation.

(** ** Reconciliation of one resource *)

Section ReconciliationClaims.
Context {W : Type} `{Provider W}.

Implicit Types (w : W) (client resource_arn : string).
Implicit Types existing : gmap string string.

Lemma current_tags_Ok client resource_arn w tag_response w1 existing :
  get_resources client resource_arn w = (Ok tag_response, w1) →
  current_tags client resource_arn w = Ok existing →
  existing_tags_of tag_response = Ok existing.
Proof. unfold current_tags. by intros ->. Qed.

Lemma current_tags_read_failed client resource_arn w e w1 existing :
  get_resources client resource_arn w = (Raise e, w1) →
  current_tags client resource_arn w ≠ Ok existing.
Proof. unfold current_tags. by intros ->. Qed.

Lemma current_tags_intro client resource_arn w tag_response w1 existing :
  get_resources client resource_arn w = (Ok tag_response, w1) →
  existing_tags_of tag_response = Ok existing →
  current_tags client resource_arn w = Ok existing.
Proof. unfold current_tags. by intros ->. Qed.

(** Relates a run to the mapping it read: the hypothesis on [current_tags]
    rules out the two cases in which the read or the parse fails. *)
Ltac read_as Hcur :=
  match goal with
  | Hread : get_resources _ _ _ = (Raise _, _) |- _ =>
      exfalso; exact (current_tags_read_failed _ _ _ _ _ _ Hread Hcur)
  | Hread : get_resources _ _ _ = (Ok _, _),
    Hex : existing_tags_of _ = _ |- _ =>
      let Hex' := fresh in
      pose proof (current_tags_Ok _ _ _ _ _ _ Hread Hcur) as Hex';
      rewrite Hex' in Hex; first [discriminate Hex | injection Hex as <-]
  end.

(** C1.  When the tag mapping read for a resource lacks at least one key of
    [REQUIRED_TAGS], [check_and_add_tags] issues exactly one [tag_resources]
    call, for that resource, and the mapping it passes holds exactly the
    missing keys, each with the value [REQUIRED_TAGS] gives it. *)
Theorem missing_keys_written client resource_arn w existing :
  current_tags client resource_arn w = Ok existing →
  (∃ kv, kv ∈ REQUIRED_TAGS ∧ existing !! kv.1 = None) →
  ∃ tags,
    write_calls (trace (check_and_add_tags client resource_arn w))
    = [(client, resource_arn, tags)] ∧
    ∀ k v, tags !! k = Some v ↔ (k, v) ∈ REQUIRED_TAGS ∧ existing !! k = None.
Proof.
  intros Hcur (kv & Hin & Hnone).
  assert (Hmissing : missing_tags existing ≠ []).
  { intros Hnil. eapply missing_of_nil in Hnil as [v Hv]; [| exact Hin].
    congruence. }
  exists (tags_dict (missing_tags existing)). split.
  - destruct (check_and_add_tags_reconciled client resource_arn w);
      read_as Hcur; done.
  - intros k v. apply lookup_written, REQUIRED_TAGS_keys_distinct.
Qed.

(** C2.  When the tag mapping read for a resource has every key of
    [REQUIRED_TAGS], [check_and_add_tags] never calls [tag_resources]. *)
Theorem fully_tagged_no_write client resource_arn w existing :
  current_tags client resource_arn w = Ok existing →
  (∀ kv, kv ∈ REQUIRED_TAGS → is_Some (existing !! kv.1)) →
  write_calls (trace (check_and_add_tags client resource_arn w)) = [].
Proof.
  intros Hcur Hall. apply missing_of_nil in Hall.
  destruct (check_and_add_tags_reconciled client resource_arn w);
    read_as Hcur; done.
Qed.

(** C3.  A write issued by [check_and_add_tags] follows a successful read of
    the same resource and names no key the read found: every key already
    present keeps its value, whatever value [REQUIRED_TAGS] has for it. *)
Theorem present_keys_never_written client resource_arn w c a tags :
  (c, a, tags) ∈ write_calls (trace (check_and_add_tags client resource_arn w)) →
  ∃ existing,
    current_tags client resource_arn w = Ok existing ∧
    c = client ∧ a = resource_arn ∧
    ∀ k, is_Some (existing !! k) →
         tags !! k = None ∧ apply_tags tags existing !! k = existing !! k.
Proof.
  intros Hin.
  destruct (check_and_add_tags_reconciled client resource_arn w)
    as [ | | | tag_response existing w1 u w2 Hread Hex Hmiss Hwrite
           | tag_response existing w1 e w2 Hread Hex Hmiss Hwrite];
    simpl in Hin; try (by apply elem_of_nil in Hin);
    apply list_elem_of_singleton in Hin; injection Hin as -> -> ->;
    (exists existing; split; [by eapply current_tags_intro |];
     do 2 (split; [done |]); intros k Hk; split;
     [by apply written_avoids_existing | by apply apply_written_keeps]).
Qed.

(** C9.  When [check_and_add_tags] runs without logging an error, the tags
    it read together with the entries it wrote have every key of
    [REQUIRED_TAGS]. *)
Theorem final_tags_cover_required client resource_arn w existing :
  current_tags client resource_arn w = Ok existing →
  resource_errors (trace (check_and_add_tags client resource_arn w)) = [] →
  ∀ kv, kv ∈ REQUIRED_TAGS →
    is_Some (tags_after existing
               (trace (check_and_add_tags client resource_arn w)) !! kv.1).
Proof.
  intros Hcur Hquiet kv Hin.
  destruct (check_and_add_tags_reconciled client resource_arn w);
    read_as Hcur; try discriminate Hquiet; unfold tags_after; simpl.
  - match goal with
    | Hnil : missing_tags _ = [] |- _ =>
        exact (proj1 (missing_of_nil _ _) Hnil kv Hin)
    end.
  - apply apply_written_covers; [apply REQUIRED_TAGS_keys_distinct | done].
Qed.

(** C10.  Reconciliation is idempotent: after a run without error on a
    resource whose tags were [T], a second run that reads the resulting
    mapping finds nothing missing and issues no write. *)
Theorem reconciliation_idempotent client resource_arn w T w' :
  current_tags client resource_arn w = Ok T →
  resource_errors (trace (check_and_add_tags client resource_arn w)) = [] →
  current_tags client resource_arn w'
  = Ok (tags_after T (trace (check_and_add_tags client resource_arn w))) →
  missing_tags
    (tags_after T (trace (check_and_add_tags client resource_arn w))) = [] ∧
  write_calls (trace (check_and_add_tags client resource_arn w')) = [].
Proof.
  intros Hcur Hquiet Hcur'.
  assert (Hnil : missing_tags
            (tags_after T (trace (check_and_add_tags client resource_arn w)))
          = []).
  { destruct (check_and_add_tags_reconciled client resource_arn w);
      read_as Hcur; try discriminate Hquiet; unfold tags_after; simpl.
    - done.
    - apply missing_of_after_write, REQUIRED_TAGS_keys_distinct. }
  split; [done |].
  destruct (check_and_add_tags_reconciled client resource_arn w');
    read_as Hcur'; done.
Qed.

End ReconciliationClaims.

(** ** Handlers and loops *)

Section Control.
Context {W : Type}.

Lemma try_except_caught {A} (m : M W A) (h : exn → M W A) w e :
  res (m w) = Raise e →
  try_except m h w = and_then (m w) (h e (world (m w))).
Proof. unfold try_except. by intros ->. Qed.

(** A handler that only prints makes the whole statement return. *)
Lemma try_except_print_returns (m : M W unit) (l : exn → line) w :
  res (try_except m (λ e, print (l e)) w) = Ok tt.
Proof.
  unfold try_except. destruct (res (m w)) as [[] | e] eqn:Hres; [done |].
  reflexivity.
Qed.

Lemma trace_bind {A B} (m : M W A) (f : A → M W B) w :
  trace (bind m f w)
  = trace (m w) ++ match res (m w) with
                   | Ok a => trace (f a (world (m w)))
                   | Raise _ => []
                   end.
Proof.
  unfold bind. destruct (res (m w)); simpl; [done |]. by rewrite app_nil_r.
Qed.

Lemma trace_try_except {A} (m : M W A) (h : exn → M W A) w :
  trace (try_except m h w)
  = trace (m w) ++ match res (m w) with
                   | Ok _ => []
                   | Raise e => trace (h e (world (m w)))
                   end.
Proof.
  unfold try_except. destruct (res (m w)); simpl; [| done].
  by rewrite app_nil_r.
Qed.

Lemma for_each_cons {A} (body : A → M W unit) x xs w :
  res (body x w) = Ok tt →
  for_each (x :: xs) body w
  = and_then (body x w) (for_each xs body (world (body x w))).
Proof. simpl. unfold bind. by intros ->. Qed.

Lemma for_each_app {A} (body : A → M W unit) xs ys w :
  res (for_each xs body w) = Ok tt →
  for_each (xs ++ ys) body w
  = and_then (for_each xs body w) (for_each ys body (world (for_each xs body w))).
Proof.
  revert w. induction xs as [| x xs IH]; intros w Hres.
  - simpl. by destruct (for_each ys body w).
  - simpl in *. unfold bind in *.
    destruct (res (body x w)) as [[] |]; [| discriminate].
    simpl in Hres. rewrite (IH _ Hres). unfold and_then. simpl.
    by rewrite app_assoc.
Qed.

(** A loop whose body always returns runs to its end. *)
Lemma for_each_returns {A} (body : A → M W unit) xs :
  (∀ x w, x ∈ xs → res (body x w) = Ok tt) →
  ∀ w, res (for_each xs body w) = Ok tt.
Proof.
  induction xs as [| x xs IH]; intros Hbody w; [done |].
  rewrite for_each_cons by (apply Hbody, list_elem_of_here). simpl.
  apply IH. intros y w' Hy. apply Hbody. by apply list_elem_of_further.
Qed.

(** What a loop shows of a kind of which each round returns and shows one
    item, [g x]. *)
Lemma for_each_omap {A B} (f : event → option B) (g : A → B)
    (body : A → M W unit) xs :
  (∀ x w, x ∈ xs →
          res (body x w) = Ok tt ∧ omap f (trace (body x w)) = [g x]) →
  ∀ w, omap f (trace (for_each xs body w)) = g <$> xs.
Proof.
  induction xs as [| x xs IH]; intros Hbody w; [done |].
  destruct (Hbody x w (list_elem_of_here _ _)) as [Hres Hg].
  rewrite for_each_cons by done. simpl. rewrite omap_app, Hg.
  simpl. f_equal. apply IH. intros y w' Hy. apply Hbody.
  by apply list_elem_of_further.
Qed.

End Control.

(** ** The passes over resources and services *)

Section Passes.
Context {W : Type} `{Provider W}.

Implicit Types (w : W) (client : string).
Implicit Types (resources : list resource_tag_mapping).

Lemma for_each_Forall {A} (P : event → Prop) (body : A → M W unit) xs :
  (∀ x w, Forall P (trace (body x w))) →
  ∀ w, Forall P (trace (for_each xs body w)).
Proof.
  intros Hbody. induction xs as [| x xs IH]; intros w; [constructor |].
  simpl. rewrite trace_bind. apply Forall_app. split; [apply Hbody |].
  destruct (res (body x w)); [apply IH | constructor].
Qed.

Lemma omap_level_nil {B} (level : event → bool) (f : event → option B) t :
  (∀ ev, level ev = true → f ev = None) →
  Forall (λ ev, level ev = true) t → omap f t = [].
Proof.
  intros Hf. induction 1 as [| ev t Hev _ IH]; [done |].
  simpl. by rewrite (Hf ev Hev).
Qed.

Lemma check_and_add_tags_level client resource_arn w :
  Forall (λ ev, resource_level ev = true)
         (trace (check_and_add_tags client resource_arn w)).
Proof.
  destruct (check_and_add_tags_reconciled client resource_arn w);
    simpl; repeat constructor.
Qed.

Lemma resource_round_run client resource resource_arn w :
  ResourceARN resource = Some resource_arn →
  resource_round client resource w = check_and_add_tags client resource_arn w.
Proof.
  intros Harn. unfold resource_round, bind, lift, and_then. rewrite Harn.
  simpl. by destruct (check_and_add_tags client resource_arn w).
Qed.

Lemma resource_round_level client resource w :
  Forall (λ ev, resource_level ev = true)
         (trace (resource_round client resource w)).
Proof.
  destruct (ResourceARN resource) as [resource_arn |] eqn:Harn.
  - rewrite (resource_round_run _ _ _ _ Harn). apply check_and_add_tags_level.
  - unfold resource_round, bind, lift. rewrite Harn. constructor.
Qed.

Lemma resource_loop_level client resources w :
  Forall (λ ev, resource_level ev = true)
         (trace (resource_loop client resources w)).
Proof. apply for_each_Forall. intros. apply resource_round_level. Qed.

Lemma resource_loop_returns client resources :
  Forall (λ resource, is_Some (ResourceARN resource)) resources →
  ∀ w, res (resource_loop client resources w) = Ok tt.
Proof.
  intros Hwf. apply for_each_returns. intros resource w Hin.
  rewrite Forall_forall in Hwf. destruct (Hwf _ Hin) as [resource_arn Harn].
  rewrite (resource_round_run _ _ _ _ Harn). apply check_and_add_tags_returns.
Qed.

(** A pass over well-formed resources invokes [check_and_add_tags] on each
    of them, in order: one tag read per resource. *)
Lemma resource_loop_reads client resources :
  Forall (λ resource, is_Some (ResourceARN resource)) resources →
  ∀ w, read_calls (trace (resource_loop client resources w))
       = (λ resource_arn, (client, resource_arn)) <$> arns resources.
Proof.
  induction 1 as [| resource resources [resource_arn Harn] Hwf IH]; intros w;
    [done |].
  unfold resource_loop in *.
  rewrite for_each_cons
    by (rewrite (resource_round_run _ _ _ _ Harn);
        apply check_and_add_tags_returns).
  simpl. unfold read_calls in *. rewrite omap_app, IH.
  rewrite (resource_round_run _ _ _ _ Harn).
  pose proof (check_and_add_tags_reads client resource_arn w) as Hread.
  unfold read_calls in Hread. rewrite Hread.
  unfold arns. simpl. by rewrite Harn.
Qed.

(** A resource without identifier ends the pass at line 72, before
    [check_and_add_tags] is reached. *)
Lemma resource_loop_key_error client resource resources w :
  ResourceARN resource = None →
  resource_loop client (resource :: resources) w
  = Outcome (Raise (KeyError "ResourceARN")) w [].
Proof.
  intros Hnone. unfold resource_loop. simpl.
  unfold bind, resource_round, bind, lift. by rewrite Hnone.
Qed.

(** The two ways a listing ends. *)
Lemma get_resources_with_tags_cases client service_name w :
  (∃ e w1, paginate client w = (Raise e, w1) ∧
     get_resources_with_tags client service_name w
     = Outcome (Ok []) w1
         [Call (Paginate client);
          Print (ErrorFetchingResources service_name e)]) ∨
  (∃ pages w1, paginate client w = (Ok pages, w1) ∧
     get_resources_with_tags client service_name w
     = Outcome (Ok (extend_pages pages)) w1 [Call (Paginate client)]).
Proof.
  unfold get_resources_with_tags, get_resources_with_tags_body, try_except,
    bind, call, print, ret, and_then.
  destruct (paginate client w) as [[pages | e] w1]; simpl.
  - right. by exists pages, w1.
  - left. by exists e, w1.
Qed.

(** The service name has no part in what a listing asks or returns. *)
Lemma get_resources_with_tags_ignores_service client service1 service2 w :
  res (get_resources_with_tags client service1 w)
  = res (get_resources_with_tags client service2 w) ∧
  world (get_resources_with_tags client service1 w)
  = world (get_resources_with_tags client service2 w) ∧
  listing_calls (trace (get_resources_with_tags client service1 w))
  = listing_calls (trace (get_resources_with_tags client service2 w)).
Proof.
  destruct (get_resources_with_tags_cases client service1 w)
    as [(e & w1 & Hp & ->) | (pages & w1 & Hp & ->)];
  destruct (get_resources_with_tags_cases client service2 w)
    as [(e' & w1' & Hp' & ->) | (pages' & w1' & Hp' & ->)];
  rewrite Hp in Hp'; by simplify_eq.
Qed.

Lemma service_round_listing_failed client service w e w1 :
  paginate client w = (Raise e, w1) →
  service_round client service w
  = Outcome (Ok tt) w1
      [Print (CheckingResources service); Call (Paginate client);
       Print (ErrorFetchingResources service e)].
Proof.
  intros Hp. unfold service_round, bind, print, and_then. simpl.
  destruct (get_resources_with_tags_cases client service w)
    as [(e' & w1' & Hp' & ->) | (pages & w1' & Hp' & ->)];
    rewrite Hp in Hp'; by simplify_eq.
Qed.

Lemma service_round_listed client service w pages w1 :
  paginate client w = (Ok pages, w1) →
  service_round client service w
  = and_then
      (Outcome (Ok tt) w1
         [Print (CheckingResources service); Call (Paginate client)])
      (resource_loop client (extend_pages pages) w1).
Proof.
  intros Hp. unfold service_round, bind, print, and_then. simpl.
  destruct (get_resources_with_tags_cases client service w)
    as [(e' & w1' & Hp' & ->) | (pages' & w1' & Hp' & ->)];
    rewrite Hp in Hp'; by simplify_eq.
Qed.

Lemma service_round_level client service w :
  Forall (λ ev, service_level ev = true)
         (trace (service_round client service w)).
Proof.
  destruct (paginate client w) as [[pages | e] w1] eqn:Hp.
  - rewrite (service_round_listed _ _ _ _ _ Hp). simpl.
    do 2 (constructor; [done |]).
    eapply Forall_impl; [apply resource_loop_level |].
    intros ev Hev. unfold service_level. rewrite Hev. by destruct ev as [[] | []].
  - rewrite (service_round_listing_failed _ _ _ _ _ Hp). simpl.
    by repeat constructor.
Qed.

Lemma service_loop_level client services w :
  Forall (λ ev, service_level ev = true)
         (trace (service_loop client services w)).
Proof. apply for_each_Forall. intros. apply service_round_level. Qed.

(** With well-formed listings a round over a service returns, announces the
    service and lists once. *)
Lemma service_round_summary client service w :
  listings_well_formed →
  res (service_round client service w) = Ok tt ∧
  services_checked (trace (service_round client service w)) = [service] ∧
  listing_calls (trace (service_round client service w)) = [client].
Proof.
  intros Hwf. destruct (paginate client w) as [[pages | e] w1] eqn:Hp.
  - rewrite (service_round_listed _ _ _ _ _ Hp). simpl.
    pose proof (resource_loop_level client (extend_pages pages) w1) as Hlevel.
    split; [apply resource_loop_returns; by eapply Hwf |].
    unfold services_checked, listing_calls.
    split; simpl; f_equal;
      (eapply omap_level_nil; [| exact Hlevel]); by intros [[] | []].
  - by rewrite (service_round_listing_failed _ _ _ _ _ Hp).
Qed.

Lemma service_loop_summary client services w :
  listings_well_formed →
  res (service_loop client services w) = Ok tt ∧
  services_checked (trace (service_loop client services w)) = services ∧
  listing_calls (trace (service_loop client services w))
  = (λ _, client) <$> services.
Proof.
  intros Hwf. split; [| split].
  - apply for_each_returns. intros service w' _.
    by apply service_round_summary.
  - unfold service_loop, services_checked.
    rewrite (for_each_omap _ id); [by rewrite list_fmap_id |].
    intros service w' _.
    destruct (service_round_summary client service w' Hwf) as (? & ? & ?).
    done.
  - unfold service_loop, listing_calls. apply for_each_omap.
    intros service w' _.
    destruct (service_round_summary client service w' Hwf) as (? & ? & ?).
    done.
Qed.

End Passes.

(** ** Failures inside a pass *)

Section PassClaims.
Context {W : Type} `{Provider W}.

Implicit Types (w : W) (client : string).

(** C5.  In a pass over resources that carry their identifier, when the tag
    read or the tag write of a resource [R] raises, [check_and_add_tags]
    returns all the same and has logged the error for [R]; the loop then goes
    through the resources after [R], invoking [check_and_add_tags] on each
    of them in turn. *)
Theorem resource_failures_isolated client before R resource_arn after w :
  Forall (λ resource, is_Some (ResourceARN resource)) before →
  ResourceARN R = Some resource_arn →
  Forall (λ resource, is_Some (ResourceARN resource)) after →
  let w0 := world (resource_loop client before w) in
  let on_R := check_and_add_tags client resource_arn w0 in
  let rest := resource_loop client after (world on_R) in
  res on_R = Ok tt ∧
  (∀ e, (get_resources client resource_arn w0).1 = Raise e →
        resource_errors (trace on_R) = [(resource_arn, e)]) ∧
  (∀ existing e,
     current_tags client resource_arn w0 = Ok existing →
     missing_tags existing ≠ [] →
     (tag_resources client resource_arn (tags_dict (missing_tags existing))
        (get_resources client resource_arn w0).2).1 = Raise e →
     resource_errors (trace on_R) = [(resource_arn, e)]) ∧
  resource_loop client (before ++ R :: after) w
  = and_then (resource_loop client before w) (and_then on_R rest) ∧
  res rest = Ok tt ∧
  read_calls (trace rest)
  = (λ resource_arn', (client, resource_arn')) <$> arns after.
Proof.
  intros Hbefore HR Hafter w0 on_R rest.
  split; [apply check_and_add_tags_returns |].
  split; [| split; [| split; [| split]]].
  - intros e Hread. subst on_R.
    destruct (check_and_add_tags_reconciled client resource_arn w0)
      as [e' w1 Hr | ? ? ? Hr | ? ? ? Hr | ? ? ? ? ? Hr | ? ? ? ? ? Hr];
      rewrite Hr in Hread; simpl in Hread; by simplify_eq.
  - intros existing e Hcur Hmissing Hwrite. subst on_R.
    unfold current_tags in Hcur.
    destruct (check_and_add_tags_reconciled client resource_arn w0)
      as [e' w1 Hr | ? ? ? Hr Hex | ? ? ? Hr Hex Hnil
          | ? ? ? ? ? Hr Hex _ Hw | ? ? ? ? ? Hr Hex _ Hw];
      rewrite Hr in Hcur, Hwrite; simpl in Hcur, Hwrite;
      try (rewrite Hex in Hcur); simplify_eq; try done.
    + rewrite Hw in Hwrite. simpl in Hwrite. discriminate.
    + rewrite Hw in Hwrite. simpl in Hwrite. by simplify_eq.
  - unfold resource_loop at 1.
    rewrite for_each_app by (by apply resource_loop_returns).
    f_equal. rewrite for_each_cons
      by (rewrite (resource_round_run _ _ _ _ HR);
          apply check_and_add_tags_returns).
    by rewrite (resource_round_run _ _ _ _ HR).
  - by apply resource_loop_returns.
  - by apply resource_loop_reads.
Qed.

(** C6.  With well-formed listings, when the listing for a service raises,
    [get_resources_with_tags] logs the error and returns the empty list, and
    the loop over the services goes through every service after it. *)
Theorem listing_failures_isolated client before service after w e :
  listings_well_formed →
  let w0 := world (service_loop client before w) in
  (paginate client w0).1 = Raise e →
  let w1 := (paginate client w0).2 in
  let rest := service_loop client after w1 in
  get_resources_with_tags client service w0
  = Outcome (Ok []) w1
      [Call (Paginate client); Print (ErrorFetchingResources service e)] ∧
  service_loop client (before ++ service :: after) w
  = and_then (service_loop client before w)
      (and_then
         (Outcome (Ok tt) w1
            [Print (CheckingResources service); Call (Paginate client);
             Print (ErrorFetchingResources service e)])
         rest) ∧
  res rest = Ok tt ∧
  services_checked (trace rest) = after ∧
  listing_calls (trace rest) = (λ _, client) <$> after.
Proof.
  intros Hwf w0 Hfail w1 rest.
  destruct (paginate client w0) as [r w1'] eqn:Hp. simpl in Hfail.
  subst r w1. simpl in rest.
  split; [| split].
  - destruct (get_resources_with_tags_cases client service w0)
      as [(e' & w1 & Hp' & ->) | (pages & w1 & Hp' & ->)];
      rewrite Hp in Hp'; by simplify_eq.
  - unfold service_loop at 1.
    rewrite for_each_app by (by apply service_loop_summary).
    f_equal. fold w0.
    rewrite for_each_cons
      by (by rewrite (service_round_listing_failed _ _ _ _ _ Hp)).
    by rewrite (service_round_listing_failed _ _ _ _ _ Hp).
  - by apply service_loop_summary.
Qed.

End PassClaims.

(** ** Profiles and the whole run *)

Section Profiles.
Context {W : Type} `{Provider W}.

Implicit Types (w : W) (profile_name : string).

Lemma process_aws_profile_returns profile_name w :
  res (process_aws_profile profile_name w) = Ok tt.
Proof. apply try_except_print_returns. Qed.

Lemma profile_loop_returns profiles w :
  res (for_each profiles process_aws_profile w) = Ok tt.
Proof.
  apply for_each_returns. intros. apply process_aws_profile_returns.
Qed.

Lemma profiles_entered_service_level t :
  Forall (λ ev, service_level ev = true) t → profiles_entered t = [].
Proof. apply omap_level_nil. by intros [[] | []]. Qed.

(** The [try] block announces its profile first, and no other. *)
Lemma process_aws_profile_body_enters profile_name w :
  profiles_entered (trace (process_aws_profile_body profile_name w))
  = [profile_name].
Proof.
  unfold process_aws_profile_body.
  rewrite trace_bind. simpl. f_equal.
  rewrite trace_bind. unfold profiles_entered. rewrite omap_app. simpl.
  destruct (new_session profile_name w) as [[session | e] w1]; simpl; [| done].
  rewrite trace_bind, omap_app. simpl.
  destruct (new_client session w1) as [[tag_client | e] w2]; simpl; [| done].
  apply profiles_entered_service_level, service_loop_level.
Qed.

Lemma process_aws_profile_enters profile_name w :
  profiles_entered (trace (process_aws_profile profile_name w))
  = [profile_name].
Proof.
  unfold process_aws_profile. rewrite trace_try_except.
  unfold profiles_entered. rewrite omap_app.
  fold (profiles_entered (trace (process_aws_profile_body profile_name w))).
  rewrite process_aws_profile_body_enters.
  destruct (res (process_aws_profile_body profile_name w)) as [| e];
    [done |].
  by destruct e.
Qed.

(** C7.  In a run whose profile store returned the profiles
    [before ++ profile_name :: after]: whatever makes [process_aws_profile]
    fail for [profile_name] (profile not found, no credentials, any other
    exception), the exception is caught and its line is logged, and the main
    loop of [main] goes on to call [process_aws_profile] on every profile
    after it; the run as a whole enters every profile of the store. *)
Theorem profile_failures_isolated w before profile_name after :
  (available_profiles w).1 = Ok (before ++ profile_name :: after) →
  let w0 :=
    world (for_each before process_aws_profile (available_profiles w).2) in
  let on_profile := process_aws_profile profile_name w0 in
  let rest := for_each after process_aws_profile (world on_profile) in
  res on_profile = Ok tt ∧
  (∀ e, res (process_aws_profile_body profile_name w0) = Raise e →
        trace on_profile
        = trace (process_aws_profile_body profile_name w0)
          ++ [Print (profile_error_line profile_name e)]) ∧
  (∀ e, (new_session profile_name w0).1 = Raise e →
        printed (trace on_profile)
        = [SwitchingToProfile profile_name;
           profile_error_line profile_name e]) ∧
  main w
  = and_then (get_aws_profiles w)
      (and_then
         (for_each before process_aws_profile (available_profiles w).2)
         (and_then on_profile rest)) ∧
  res rest = Ok tt ∧
  profiles_entered (trace rest) = after ∧
  profiles_entered (trace (main w)) = before ++ profile_name :: after.
Proof.
  intros Hprofiles w0 on_profile rest.
  assert (Hentered : ∀ profiles w',
            profiles_entered (trace (for_each profiles process_aws_profile w'))
            = profiles).
  { intros profiles w'. unfold profiles_entered.
    rewrite (for_each_omap _ id); [by rewrite list_fmap_id |].
    intros p w'' _. split; [apply process_aws_profile_returns |].
    apply process_aws_profile_enters. }
  assert (Hmain : main w
            = and_then (get_aws_profiles w)
                (and_then
                   (for_each before process_aws_profile
                      (available_profiles w).2)
                   (and_then on_profile rest))).
  { unfold main, bind. unfold get_aws_profiles at 1 2, call. simpl.
    rewrite Hprofiles.
    assert (Hloop : ∀ w',
              match before ++ profile_name :: after with
              | [] => print NoProfilesFound
              | _ :: _ =>
                  for_each (before ++ profile_name :: after)
                    process_aws_profile
              end w'
              = for_each (before ++ profile_name :: after)
                  process_aws_profile w')
      by (intros w'; by destruct before).
    rewrite Hloop.
    rewrite for_each_app by apply profile_loop_returns.
    by rewrite for_each_cons by apply process_aws_profile_returns. }
  split; [apply process_aws_profile_returns |].
  split; [| split; [| split; [| split; [| split]]]].
  - intros e Hraise. subst on_profile. unfold process_aws_profile.
    by rewrite (try_except_caught _ _ _ _ Hraise).
  - intros e Hsession. subst on_profile.
    unfold process_aws_profile, process_aws_profile_body, try_except, bind,
      call, print, and_then. simpl.
    destruct (new_session profile_name w0) as [r w1]. simpl in Hsession.
    subst r. reflexivity.
  - exact Hmain.
  - apply profile_loop_returns.
  - apply Hentered.
  - rewrite Hmain. unfold and_then. simpl. unfold profiles_entered.
    rewrite !omap_app. simpl.
    fold (profiles_entered
            (trace (for_each before process_aws_profile
                      (available_profiles w).2))).
    fold (profiles_entered (trace on_profile)).
    fold (profiles_entered (trace rest)).
    rewrite Hentered. subst on_profile rest.
    by rewrite process_aws_profile_enters, Hentered.
Qed.

(** C8.  Once the profiles have been enumerated the run ends normally, with
    status 0, whatever fails at the level of a profile, a service or a
    resource: no exception leaves the main loop. *)
Theorem run_exits_zero w profiles :
  (available_profiles w).1 = Ok profiles →
  res (main w) = Ok tt ∧ exit_status (main w) = 0 ∧
  ∀ w', res (for_each profiles process_aws_profile w') = Ok tt.
Proof.
  intros Hprofiles.
  assert (Hres : res (main w) = Ok tt).
  { unfold main, get_aws_profiles, bind, call, and_then. simpl.
    rewrite Hprofiles. destruct profiles as [| p ps]; [done |].
    exact (profile_loop_returns (p :: ps) _). }
  split; [done |]. split; [| intros; apply profile_loop_returns].
  unfold exit_status. by rewrite Hres.
Qed.

End Profiles.

(** ** The properties on the simulated provider *)

Section Examples.
Import Sim.

Lemma sim_listings_well_formed : listings_well_formed (W := account).
Proof.
  intros client a pages a' Hp. simpl in Hp. unfold sim_paginate in Hp.
  assert (Hpages : pages
    = [{| ResourceTagMappingList := Some (mapping_of <$> inventory a) |}])
    by (destruct (listing_plan a) as [| [] plan]; by simplify_eq).
  subst pages. unfold extend_pages. simpl.
  apply Forall_fmap, Forall_true. intros entry. by eexists.
Qed.

(** The end-to-end case of the specification: a resource tagged
    [Environment=Production] receives [Owner=CloudEng] and nothing else. *)
Example instance_receives_owner_only :
  write_calls (trace (check_and_add_tags "default" instance_arn demo))
  = [("default", instance_arn, {["Owner" := "CloudEng"]})].
Proof. vm_compute. reflexivity. Qed.

(** The other end-to-end case: a resource with both required tags triggers
    no write. *)
Example bucket_triggers_no_write :
  trace (check_and_add_tags "default" bucket_arn demo)
  = [Call (GetResources "default" bucket_arn);
     Print (AlreadyHasAllTags bucket_arn)].
Proof. vm_compute. reflexivity. Qed.

(** A queue whose [Owner] is not the required one keeps it. *)
Example queue_keeps_its_owner :
  (inventory (world (check_and_add_tags "default" queue_arn demo)))
  = [(instance_arn, {["Environment" := "Production"]});
     (bucket_arn, <["Environment" := "Production"]> {["Owner" := "CloudEng"]});
     (queue_arn, <["Environment" := "Production"]> {["Owner" := "Payments"]})].
Proof. vm_compute. reflexivity. Qed.

Lemma missing_keys_written_witness :
  ∃ tags,
    write_calls (trace (check_and_add_tags "default" instance_arn demo))
    = [("default", instance_arn, tags)] ∧
    ∀ k v, tags !! k = Some v ↔
           (k, v) ∈ REQUIRED_TAGS ∧
           ({["Environment" := "Production"]} : gmap string string) !! k = None.
Proof.
  apply (missing_keys_written "default" instance_arn demo
           {["Environment" := "Production"]}).
  - vm_compute. reflexivity.
  - exists ("Owner", "CloudEng"). split.
    + apply list_elem_of_further, list_elem_of_here.
    + vm_compute. reflexivity.
Defined.

Lemma fully_tagged_no_write_witness :
  write_calls (trace (check_and_add_tags "default" bucket_arn demo)) = [].
Proof.
  apply (fully_tagged_no_write "default" bucket_arn demo
           (<["Environment" := "Production"]> {["Owner" := "CloudEng"]})).
  - vm_compute. reflexivity.
  - intros kv Hin.
    repeat (apply elem_of_cons in Hin as [-> | Hin];
            [vm_compute; eexists; reflexivity |]).
    by apply elem_of_nil in Hin.
Defined.

Lemma present_keys_never_written_witness :
  ∃ existing,
    current_tags "default" queue_arn demo = Ok existing ∧
    "default" = "default" ∧ queue_arn = queue_arn ∧
    ∀ k, is_Some (existing !! k) →
         ({["Environment" := "Production"]} : gmap string string) !! k = None ∧
         apply_tags {["Environment" := "Production"]} existing !! k
         = existing !! k.
Proof.
  apply (present_keys_never_written "default" queue_arn demo
           "default" queue_arn {["Environment" := "Production"]}).
  vm_compute. apply list_elem_of_here.
Defined.

Lemma final_tags_cover_required_witness :
  is_Some (tags_after {["Environment" := "Production"]}
             (trace (check_and_add_tags "default" instance_arn demo))
           !! "Owner").
Proof.
  refine (final_tags_cover_required (W := account) "default" instance_arn
            demo {["Environment" := "Production"]} _ _
            ("Owner", "CloudEng") _).
  - vm_compute. reflexivity.
  - vm_compute. reflexivity.
  - apply list_elem_of_further, list_elem_of_here.
Defined.

Lemma reconciliation_idempotent_witness :
  missing_tags
    (tags_after {["Environment" := "Production"]}
       (trace (check_and_add_tags "default" instance_arn demo))) = [] ∧
  write_calls
    (trace (check_and_add_tags "default" instance_arn
              (world (check_and_add_tags "default" instance_arn demo)))) = [].
Proof.
  apply (reconciliation_idempotent "default" instance_arn demo
           {["Environment" := "Production"]}).
  - vm_compute. reflexivity.
  - vm_compute. reflexivity.
  - vm_compute. reflexivity.
Defined.

(** C4, as the code has it.  The listing made for a service is not filtered
    by that service: asked for ["s3"], [get_resources_with_tags] returns the
    instance and the queue along with the bucket, the very list it returns
    for ["ec2"]; a pass over two services therefore reconciles every resource
    twice. *)
Theorem listing_not_filtered_by_service :
  listed (get_resources_with_tags "default" "s3" demo)
  = [instance_arn; bucket_arn; queue_arn] ∧
  listed (get_resources_with_tags "default" "ec2" demo)
  = listed (get_resources_with_tags "default" "s3" demo) ∧
  snd <$> read_calls (trace (service_loop "default" ["ec2"; "s3"] demo))
  = [instance_arn; bucket_arn; queue_arn;
     instance_arn; bucket_arn; queue_arn].
Proof. vm_compute. repeat split; reflexivity. Qed.

Lemma resource_failures_isolated_witness :
  resource_errors (trace (check_and_add_tags "default" instance_arn flaky))
  = [(instance_arn, ClientError "AccessDeniedException")] ∧
  read_calls
    (trace (resource_loop "default"
              (mapping_of <$> [(bucket_arn, ∅); (queue_arn, ∅)])
              (world (check_and_add_tags "default" instance_arn flaky))))
  = [("default", bucket_arn); ("default", queue_arn)].
Proof.
  destruct (resource_failures_isolated (W := account) "default" []
              (mapping_of (instance_arn, ∅)) instance_arn
              (mapping_of <$> [(bucket_arn, ∅); (queue_arn, ∅)]) flaky)
    as (_ & Hlogged & _ & _ & _ & Hreads).
  - constructor.
  - reflexivity.
  - repeat constructor; eexists; reflexivity.
  - split; [| exact Hreads].
    apply Hlogged. vm_compute. reflexivity.
Defined.

Lemma listing_failures_isolated_witness :
  get_resources_with_tags "default" "ec2" throttled
  = Outcome (Ok []) (set_plan [] throttled)
      [Call (Paginate "default");
       Print (ErrorFetchingResources "ec2"
                (ClientError "ThrottlingException"))] ∧
  services_checked
    (trace (service_loop "default" ["s3"; "rds"] (set_plan [] throttled)))
  = ["s3"; "rds"].
Proof.
  destruct (listing_failures_isolated (W := account) "default" [] "ec2"
              ["s3"; "rds"] throttled (ClientError "ThrottlingException")
              sim_listings_well_formed)
    as (Hlisting & _ & _ & Hchecked & _).
  - vm_compute. reflexivity.
  - split; [exact Hlisting | exact Hchecked].
Defined.

(** A run over three profiles, the second of them unknown: each is entered,
    and the unknown one is reported. *)
Example unknown_profile_is_passed_over :
  profiles_entered (trace (main throttled)) = ["default"; "ghost"; "audit"] ∧
  trace (process_aws_profile "ghost" throttled)
  = [Print (SwitchingToProfile "ghost"); Call (NewSession "ghost");
     Print (ProfileNotFoundLine "ghost")].
Proof. split; vm_compute; reflexivity. Qed.

Lemma profile_failures_isolated_witness :
  printed
    (trace (process_aws_profile "ghost"
              (world (for_each ["default"] process_aws_profile
                        (available_profiles throttled).2))))
  = [SwitchingToProfile "ghost"; ProfileNotFoundLine "ghost"] ∧
  profiles_entered (trace (main throttled)) = ["default"; "ghost"; "audit"].
Proof.
  destruct (profile_failures_isolated (W := account) throttled ["default"]
              "ghost" ["audit"])
    as (_ & _ & Hlogged & _ & _ & _ & Hentered).
  - reflexivity.
  - split; [| exact Hentered].
    apply (Hlogged (ProfileNotFound "ghost")). vm_compute. reflexivity.
Defined.

Lemma run_exits_zero_witness :
  res (main throttled) = Ok tt ∧ exit_status (main throttled) = 0 ∧
  ∀ a, res (for_each ["default"; "ghost"; "audit"] process_aws_profile a)
       = Ok tt.
Proof.
  apply (run_exits_zero (W := account) throttled
           ["default"; "ghost"; "audit"]).
  vm_compute. reflexivity.
Defined.

End Examples.

(** * Further properties *)

(** ** The dict built from a response *)

Section ExistingTags.

Implicit Types (existing : gmap string string) (ts : list tag).

Lemma read_tags_app existing ts1 ts2 :
  read_tags existing (ts1 ++ ts2)
  = match read_tags existing ts1 with
    | Ok existing' => read_tags existing' ts2
    | Raise e => Raise e
    end.
Proof.
  revert existing. induction ts1 as [| t ts1 IH]; intros existing; [done |].
  simpl. destruct (read_tag existing t); [apply IH | done].
Qed.

(** The two nested loops of lines 40-41 are one loop over all the tags. *)
Lemma read_mappings_flat existing (ms : list resource_tag_mapping) :
  read_mappings existing ms
  = read_tags existing (ms ≫= (λ m, default [] (Tags m))).
Proof.
  revert existing. induction ms as [| m ms IH]; intros existing; [done |].
  simpl. rewrite read_tags_app.
  destruct (read_tags existing (default [] (Tags m))); [apply IH | done].
Qed.

Lemma existing_tags_of_flat tag_response :
  existing_tags_of tag_response = read_tags ∅ (all_tags tag_response).
Proof.
  unfold existing_tags_of, all_tags.
  destruct (ResourceTagMappingList tag_response); [| done].
  apply read_mappings_flat.
Qed.

Lemma read_tags_Ok existing ts existing' :
  read_tags existing ts = Ok existing' ↔
  ∃ l, ts = pair_tag <$> l ∧
       existing' = foldl (λ d t, <[t.1 := t.2]> d) existing l.
Proof.
  revert existing. induction ts as [| t ts IH]; intros existing; simpl.
  - split.
    + intros [= <-]. by exists [].
    + intros (l & Hl & ->). symmetry in Hl. apply fmap_nil_inv in Hl.
      by subst l.
  - destruct t as [[k |] [v |]]; unfold read_tag; simpl.
    + rewrite IH. split.
      * intros (l & -> & ->). by exists ((k, v) :: l).
      * intros (l & Hl & ->). destruct l as [| [k' v'] l]; [done |].
        injection Hl as -> -> ->. by exists l.
    + split; [done |]. intros (l & Hl & _).
      destruct l as [| [k' v'] l]; done.
    + split; [done |]. intros (l & Hl & _).
      destruct l as [| [k' v'] l]; done.
    + split; [done |]. intros (l & Hl & _).
      destruct l as [| [k' v'] l]; done.
Qed.

Lemma read_tags_Raise existing ts e :
  read_tags existing ts = Raise e ↔
  ∃ good t rest,
    ts = (pair_tag <$> good) ++ t :: rest ∧
    ((Value t = None ∧ e = KeyError "Value") ∨
     (is_Some (Value t) ∧ Key t = None ∧ e = KeyError "Key")).
Proof.
  revert existing. induction ts as [| t ts IH]; intros existing; simpl.
  - split; [done |]. intros (good & t & rest & Hts & _).
    by destruct good.
  - destruct t as [[k |] [v |]]; unfold read_tag; simpl.
    + rewrite IH. split.
      * intros (good & t & rest & -> & Ht).
        by exists ((k, v) :: good), t, rest.
      * intros (good & t & rest & Hts & Ht).
        destruct good as [| [k' v'] good]; simpl in Hts.
        -- injection Hts as <- <-. simpl in Ht.
           destruct Ht as [[? _] | (_ & ? & _)]; done.
        -- injection Hts as -> -> ->. by exists good, t, rest.
    + split.
      * intros [= <-]. exists [], {| Key := Some k; Value := None |}, ts.
        split; [done |]. by left.
      * intros (good & t & rest & Hts & Ht).
        destruct good as [| [k' v'] good]; simpl in Hts; [| done].
        injection Hts as <- <-. simpl in Ht.
        destruct Ht as [[_ ->] | ([? ?] & _)]; done.
    + split.
      * intros [= <-]. exists [], {| Key := None; Value := Some v |}, ts.
        split; [done |]. right. by split; [eexists |].
      * intros (good & t & rest & Hts & Ht).
        destruct good as [| [k' v'] good]; simpl in Hts; [| done].
        injection Hts as <- <-. simpl in Ht.
        destruct Ht as [[? _] | (_ & _ & ->)]; done.
    + split.
      * intros [= <-]. exists [], {| Key := None; Value := None |}, ts.
        split; [done |]. by left.
      * intros (good & t & rest & Hts & Ht).
        destruct good as [| [k' v'] good]; simpl in Hts; [| done].
        injection Hts as <- <-. simpl in Ht.
        destruct Ht as [[_ ->] | ([? ?] & _)]; done.
Qed.

(** X1.  [existing_tags] is built exactly when every tag of the response,
    over all its mappings, has both ["Key"] and ["Value"]; it is then the
    dict of those pairs inserted in order, a later pair replacing an earlier
    one with the same key. *)
Theorem existing_tags_of_merges tag_response existing :
  existing_tags_of tag_response = Ok existing ↔
  ∃ l, all_tags tag_response = pair_tag <$> l ∧ existing = tags_dict l.
Proof. rewrite existing_tags_of_flat. apply read_tags_Ok. Qed.

(** X2.  Building [existing_tags] raises exactly when some tag lacks a key:
    at the first such tag, [KeyError("Value")] when ["Value"] is absent
    (whether or not ["Key"] is) and [KeyError("Key")] when only ["Key"] is
    absent. *)
Theorem existing_tags_of_key_error tag_response e :
  existing_tags_of tag_response = Raise e ↔
  ∃ good t rest,
    all_tags tag_response = (pair_tag <$> good) ++ t :: rest ∧
    ((Value t = None ∧ e = KeyError "Value") ∨
     (is_Some (Value t) ∧ Key t = None ∧ e = KeyError "Key")).
Proof. rewrite existing_tags_of_flat. apply read_tags_Raise. Qed.

End ExistingTags.

(** ** More on one reconciliation and one listing *)

Section OneCall.
Context {W : Type} `{Provider W}.

Implicit Types (w : W) (client resource_arn : string).
Implicit Types existing : gmap string string.

(** X3.  When the tag read raises, or its answer holds an ill-formed tag,
    [check_and_add_tags] writes nothing: it leaves the read, then the one
    line that reports the exception, and returns. *)
Theorem failed_read_writes_nothing client resource_arn w e :
  current_tags client resource_arn w = Raise e →
  check_and_add_tags client resource_arn w
  = Outcome (Ok tt) (get_resources client resource_arn w).2
      [Call (GetResources client resource_arn);
       Print (ErrorProcessingResource resource_arn e)].
Proof.
  unfold current_tags. intros Hcur.
  destruct (check_and_add_tags_reconciled client resource_arn w)
    as [e' w1 Hr | ? e' w1 Hr Hex | ? ? w1 Hr Hex _
        | ? ? w1 ? ? Hr Hex _ _ | ? ? w1 ? ? Hr Hex _ _];
    rewrite Hr in Hcur |- *; simpl in Hcur |- *;
    try (rewrite Hex in Hcur); by simplify_eq.
Qed.

(** X4.  An answer that has no ["ResourceTagMappingList"], no mapping or no
    tag at all counts as an untagged resource: the whole of [REQUIRED_TAGS]
    is written, in one call. *)
Theorem untagged_resource_gets_all client resource_arn w tag_response :
  (get_resources client resource_arn w).1 = Ok tag_response →
  all_tags tag_response = [] →
  missing_tags ∅ = REQUIRED_TAGS ∧
  write_calls (trace (check_and_add_tags client resource_arn w))
  = [(client, resource_arn, tags_dict REQUIRED_TAGS)].
Proof.
  intros Hread Hnone.
  assert (Hex : existing_tags_of tag_response = Ok ∅)
    by (by rewrite existing_tags_of_flat, Hnone).
  assert (Hall : missing_tags ∅ = REQUIRED_TAGS) by done.
  split; [done |].
  destruct (check_and_add_tags_reconciled client resource_arn w)
    as [e' w1 Hr | ? e' w1 Hr Hex' | ? ? w1 Hr Hex' Hnil
        | ? ? w1 ? ? Hr Hex' _ _ | ? ? w1 ? ? Hr Hex' _ _];
    rewrite Hr in Hread; simpl in Hread; simplify_eq;
    rewrite Hex in Hex'; simplify_eq; simpl; by rewrite Hall.
Qed.

(** X5.  The line "Added missing tags" is printed only for the resource at
    hand, with the missing tags of the mapping read, and only after the
    write of those tags has returned. *)
Theorem added_line_means_written client resource_arn w missing a :
  Print (AddedMissingTags missing a)
    ∈ trace (check_and_add_tags client resource_arn w) →
  a = resource_arn ∧ missing ≠ [] ∧
  ∃ existing,
    current_tags client resource_arn w = Ok existing ∧
    missing = missing_tags existing ∧
    (tag_resources client resource_arn (tags_dict missing)
       (get_resources client resource_arn w).2).1 = Ok tt.
Proof.
  intros Hin.
  destruct (check_and_add_tags_reconciled client resource_arn w)
    as [e' w1 Hr | ? e' w1 Hr Hex | ? ? w1 Hr Hex Hnil
        | ? existing w1 u w2 Hr Hex Hmiss Hw | ? ? w1 ? ? Hr Hex _ _];
    simpl in Hin;
    repeat (apply elem_of_cons in Hin as [Heq | Hin]; [try discriminate |]);
    try (by apply elem_of_nil in Hin).
  injection Heq as -> ->. split; [done |]. split; [done |].
  exists existing. unfold current_tags. rewrite Hr. simpl.
  rewrite Hw. by destruct u.
Qed.

(** X8.  [get_resources_with_tags] never raises; whatever the outcome it has
    made one listing call and no tag read or write. *)
Theorem get_resources_with_tags_total client service_name w :
  (∃ resources,
     res (get_resources_with_tags client service_name w) = Ok resources) ∧
  listing_calls (trace (get_resources_with_tags client service_name w))
  = [client] ∧
  read_calls (trace (get_resources_with_tags client service_name w)) = [] ∧
  write_calls (trace (get_resources_with_tags client service_name w)) = [].
Proof.
  destruct (get_resources_with_tags_cases client service_name w)
    as [(e & w1 & _ & ->) | (pages & w1 & _ & ->)]; simpl; eauto.
Qed.

End OneCall.

(** X6.  The diff looks at the keys present and at nothing else: two
    mappings with the same keys have the same missing tags, whatever their
    values. *)
Theorem missing_tags_by_keys (existing1 existing2 : gmap string string) :
  dom existing1 = dom existing2 →
  missing_tags existing1 = missing_tags existing2.
Proof.
  intros Hdom. unfold missing_tags, missing_of.
  apply list_filter_iff. intros kv.
  by rewrite <- !not_elem_of_dom, Hdom.
Qed.

Lemma extend_pages_from (acc : list resource_tag_mapping)
    (pages : list get_resources_output) :
  foldl (λ resources page,
           resources ++ default [] (ResourceTagMappingList page)) acc pages
  = acc ++ extend_pages pages.
Proof.
  unfold extend_pages. revert acc.
  induction pages as [| page pages IH]; intros acc; simpl.
  - by rewrite app_nil_r.
  - rewrite (IH (acc ++ _)), (IH (default [] _)). by rewrite app_assoc.
Qed.

Lemma extend_pages_bind (pages : list get_resources_output) :
  extend_pages pages
  = pages ≫= (λ page, default [] (ResourceTagMappingList page)).
Proof.
  induction pages as [| page pages IH]; [done |].
  unfold extend_pages. simpl. rewrite extend_pages_from. by rewrite IH.
Qed.

(** X7.  The listing keeps the resources of every page, page after page, and
    nothing else: each page puts its ["ResourceTagMappingList"] (nothing,
    when it has none) in front of the resources of the pages after it; the
    resources of a run of pages followed by another are those of the first
    followed by those of the second; and a resource is listed exactly when
    some page holds it. *)
Theorem extend_pages_app (pages1 pages2 : list get_resources_output) :
  extend_pages (pages1 ++ pages2)
  = extend_pages pages1 ++ extend_pages pages2 ∧
  extend_pages ({| ResourceTagMappingList := None |} :: pages2)
  = extend_pages pages2 ∧
  (∀ page,
     extend_pages (page :: pages2)
     = default [] (ResourceTagMappingList page) ++ extend_pages pages2) ∧
  (∀ resource,
     resource ∈ extend_pages pages1 ↔
     ∃ page resources,
       page ∈ pages1 ∧ ResourceTagMappingList page = Some resources ∧
       resource ∈ resources).
Proof.
  split; [| split; [done |]; split].
  - unfold extend_pages at 1. rewrite foldl_app.
    fold (extend_pages pages1). apply extend_pages_from.
  - intros page. by rewrite !extend_pages_bind.
  - intros resource. rewrite extend_pages_bind, list_elem_of_bind. split.
    + intros (page & Hin & Hpage).
      destruct (ResourceTagMappingList page) as [resources |] eqn:Hlist;
        simpl in Hin; [by exists page, resources |].
      by apply elem_of_nil in Hin.
    + intros (page & resources & Hpage & Hlist & Hin).
      exists page. by rewrite Hlist.
Qed.

(** ** What holds of the trace of a whole run *)

Section TraceInvariant.
Context {W : Type} `{Provider W}.

(** A property of traces that holds of the empty trace, of the events the
    script leaves outside [check_and_add_tags] and of every run of
    [check_and_add_tags], and that concatenation keeps. *)
Variable Q : list event → Prop.
Hypothesis Q_nil : Q [].
Hypothesis Q_app : ∀ t1 t2, Q t1 → Q t2 → Q (t1 ++ t2).
Hypothesis Q_print : ∀ l, Q [Print l].
Hypothesis Q_profiles : Q [Call AvailableProfiles].
Hypothesis Q_session : ∀ p, Q [Call (NewSession p)].
Hypothesis Q_client : ∀ s, Q [Call (NewClient s)].
Hypothesis Q_paginate : ∀ c, Q [Call (Paginate c)].
Hypothesis Q_check :
  ∀ c a (w : W), Q (trace (check_and_add_tags c a w)).

Lemma bind_invariant {A B} (m : M W A) (f : A → M W B) w :
  Q (trace (m w)) → (∀ a w', Q (trace (f a w'))) → Q (trace (bind m f w)).
Proof.
  intros Hm Hf. rewrite trace_bind. apply Q_app; [done |].
  destruct (res (m w)); [apply Hf | apply Q_nil].
Qed.

Lemma try_except_invariant {A} (m : M W A) (h : exn → M W A) w :
  Q (trace (m w)) → (∀ e w', Q (trace (h e w'))) →
  Q (trace (try_except m h w)).
Proof.
  intros Hm Hh. rewrite trace_try_except. apply Q_app; [done |].
  destruct (res (m w)); [apply Q_nil | apply Hh].
Qed.

Lemma for_each_invariant {A} (body : A → M W unit) xs :
  (∀ x w, Q (trace (body x w))) → ∀ w, Q (trace (for_each xs body w)).
Proof.
  intros Hbody. induction xs as [| x xs IH]; intros w; [apply Q_nil |].
  simpl. apply bind_invariant; [apply Hbody | intros; apply IH].
Qed.

Lemma resource_loop_invariant client resources w :
  Q (trace (resource_loop client resources w)).
Proof.
  apply for_each_invariant. intros resource w'. unfold resource_round.
  apply bind_invariant; [apply Q_nil | intros; apply Q_check].
Qed.

Lemma get_resources_with_tags_invariant client service_name w :
  Q (trace (get_resources_with_tags client service_name w)).
Proof.
  destruct (get_resources_with_tags_cases client service_name w)
    as [(e & w1 & _ & ->) | (pages & w1 & _ & ->)]; simpl.
  - apply (Q_app [_] [_]); [apply Q_paginate | apply Q_print].
  - apply Q_paginate.
Qed.

Lemma service_loop_invariant client services w :
  Q (trace (service_loop client services w)).
Proof.
  apply for_each_invariant. intros service w'. unfold service_round.
  apply bind_invariant; [apply Q_print | intros _ w1].
  apply bind_invariant; [apply get_resources_with_tags_invariant |].
  intros. apply resource_loop_invariant.
Qed.

Lemma process_aws_profile_invariant profile_name w :
  Q (trace (process_aws_profile profile_name w)).
Proof.
  apply try_except_invariant; [| intros; apply Q_print].
  unfold process_aws_profile_body.
  apply bind_invariant; [apply Q_print | intros _ w1].
  apply bind_invariant; [apply Q_session | intros session w2].
  apply bind_invariant; [apply Q_client | intros tag_client w3].
  apply service_loop_invariant.
Qed.

Lemma main_invariant w : Q (trace (main w)).
Proof.
  unfold main. apply bind_invariant; [apply Q_profiles |].
  intros [| p ps] w1; [apply Q_print |].
  apply for_each_invariant. intros. apply process_aws_profile_invariant.
Qed.

End TraceInvariant.

Lemma well_preceded_weaken prev t :
  well_preceded None t = true → well_preceded prev t = true.
Proof.
  by destruct t as [| [l | []] t].
Qed.

Lemma well_preceded_app prev t1 t2 :
  well_preceded prev t1 = true → well_preceded None t2 = true →
  well_preceded prev (t1 ++ t2) = true.
Proof.
  revert prev. induction t1 as [| ev t1 IH]; intros prev H1 H2.
  - by apply well_preceded_weaken.
  - destruct ev as [l | []]; simpl in *; try (by apply IH).
    apply andb_true_iff in H1 as [Hprev H1].
    apply andb_true_iff. split; [done | by apply IH].
Qed.

(** Where a well-preceded trace has a write, the read of the same resource
    by the same client stands right before it. *)
Lemma well_preceded_split prev t1 c a tags t2 :
  well_preceded prev (t1 ++ Call (TagResources c a tags) :: t2) = true →
  (t1 = [] ∧ prev = Some (c, a)) ∨
  ∃ t0, t1 = t0 ++ [Call (GetResources c a)].
Proof.
  revert prev. induction t1 as [| ev t1 IH]; intros prev Hwp.
  - left. split; [done |]. simpl in Hwp.
    apply andb_true_iff in Hwp as [Hprev _].
    by apply bool_decide_eq_true in Hprev.
  - right.
    assert (Hnext : ∃ prev', well_preceded prev'
              (t1 ++ Call (TagResources c a tags) :: t2) = true ∧
              (prev' = None ∨ ∃ c' a', ev = Call (GetResources c' a') ∧
                                      prev' = Some (c', a'))).
    { destruct ev as [l | []]; simpl in Hwp;
        try (exists None; split; [done | by left]).
      - eexists. split; [exact Hwp |]. right. by eexists _, _.
      - apply andb_true_iff in Hwp as [_ Hwp].
        exists None. split; [done | by left]. }
    destruct Hnext as (prev' & Hwp' & Hprev').
    destruct (IH prev' Hwp') as [[-> ->] | [t0 ->]].
    + destruct Hprev' as [? | (c' & a' & -> & [= -> ->])]; [done |].
      by exists [].
    + by exists (ev :: t0).
Qed.

Section WholeRun.
Context {W : Type} `{Provider W}.

Implicit Types w : W.

(** X15.  Over a whole run, whatever the provider answers, every write is
    non-empty and writes only items of [REQUIRED_TAGS]. *)
Theorem run_writes_required_only w :
  Forall (λ write : string * string * gmap string string,
            write.2 ≠ ∅ ∧
            ∀ k v, write.2 !! k = Some v → (k, v) ∈ REQUIRED_TAGS)
         (write_calls (trace (main w))).
Proof.
  apply (main_invariant (λ t, Forall _ (write_calls t))); try by constructor.
  - intros t1 t2 H1 H2. unfold write_calls. rewrite omap_app.
    by apply Forall_app.
  - intros c a w'.
    destruct (check_and_add_tags_reconciled c a w')
      as [| | | ? existing ? ? ? _ _ Hmiss _ | ? existing ? ? ? _ _ Hmiss _];
      simpl; try by constructor.
    all: constructor; [| constructor]; simpl; split.
    all: try (intros k v Hk;
              by apply (lookup_written REQUIRED_TAGS
                          REQUIRED_TAGS_keys_distinct) in Hk as [? _]).
    all: intros Hempty;
      destruct (missing_tags existing) as [| kv missing] eqn:Hm; [done |];
      assert (Hnone : tags_dict (kv :: missing) !! kv.1 = None)
        by (by rewrite Hempty, lookup_empty);
      apply lookup_tags_dict_None in Hnone; apply Hnone;
      rewrite fmap_cons; apply list_elem_of_here.
Qed.

(** X16.  Over a whole run no write is blind: right before each
    [tag_resources] call stands the [get_resources] call of the same client
    for the same resource. *)
Theorem run_reads_before_writing w t1 client resource_arn tags t2 :
  trace (main w) = t1 ++ Call (TagResources client resource_arn tags) :: t2 →
  ∃ t0, t1 = t0 ++ [Call (GetResources client resource_arn)].
Proof.
  intros Hsplit.
  assert (Hwp : well_preceded None (trace (main w)) = true).
  { apply (main_invariant (λ t, well_preceded None t = true));
      try done; try (intros; by apply well_preceded_app).
    intros c a w'.
    destruct (check_and_add_tags_reconciled c a w'); simpl;
      rewrite ?bool_decide_eq_true_2; done. }
  rewrite Hsplit in Hwp.
  by destruct (well_preceded_split _ _ _ _ _ _ Hwp) as [[_ ?] | ?].
Qed.

End WholeRun.

(** ** More on passes, profiles and the run *)

Section Run.
Context {W : Type} `{Provider W}.

Implicit Types (w : W) (client profile_name : string).

(** X9.  A listed resource without ["ResourceARN"] ends the pass over the
    services: the resources listed before it are reconciled, then
    [KeyError("ResourceARN")] leaves the loop, and no service after the one
    being checked is looked at. *)
Theorem ill_formed_listing_ends_pass client service after w pages w1
    good bad rest :
  paginate client w = (Ok pages, w1) →
  extend_pages pages = good ++ bad :: rest →
  Forall (λ resource, is_Some (ResourceARN resource)) good →
  ResourceARN bad = None →
  res (service_loop client (service :: after) w)
  = Raise (KeyError "ResourceARN") ∧
  services_checked (trace (service_loop client (service :: after) w))
  = [service] ∧
  read_calls (trace (service_loop client (service :: after) w))
  = (λ resource_arn, (client, resource_arn)) <$> arns good.
Proof.
  intros Hp Hpages Hgood Hbad.
  assert (Hround : service_round client service w
    = Outcome (Raise (KeyError "ResourceARN"))
        (world (resource_loop client good w1))
        ([Print (CheckingResources service); Call (Paginate client)]
         ++ trace (resource_loop client good w1))).
  { rewrite (service_round_listed _ _ _ _ _ Hp), Hpages.
    unfold resource_loop at 1.
    rewrite for_each_app by (by apply resource_loop_returns).
    fold (resource_loop client good w1).
    fold (resource_loop client (bad :: rest)
            (world (resource_loop client good w1))).
    rewrite (resource_loop_key_error _ _ _ _ Hbad).
    unfold and_then. simpl. by rewrite app_nil_r. }
  unfold service_loop. simpl. unfold bind. rewrite Hround. simpl.
  split; [done |].
  pose proof (resource_loop_level client good w1) as Hlevel.
  split.
  - f_equal. unfold services_checked.
    eapply omap_level_nil; [| exact Hlevel]. by intros [[] | []].
  - by apply resource_loop_reads.
Qed.

(** X10.  With no profile in the store the run prints the one line that says
    so and ends: no session, no listing, no tag call. *)
Theorem no_profiles_no_work w :
  (available_profiles w).1 = Ok [] →
  main w = Outcome (Ok tt) (available_profiles w).2
             [Call AvailableProfiles; Print NoProfilesFound].
Proof.
  intros Hnone. unfold main, get_aws_profiles, bind, call, print, and_then.
  simpl. by rewrite Hnone.
Qed.

(** X11.  An exception of the profile store itself is not caught: it leaves
    the script, which has printed nothing and exits with status 1. *)
Theorem enumeration_failure_escapes w e :
  (available_profiles w).1 = Raise e →
  main w = Outcome (Raise e) (available_profiles w).2
             [Call AvailableProfiles] ∧
  exit_status (main w) = 1.
Proof.
  intros Hraise.
  assert (Hmain : main w = Outcome (Raise e) (available_profiles w).2
                             [Call AvailableProfiles]).
  { unfold main, get_aws_profiles, bind, call. simpl. by rewrite Hraise. }
  split; [done |]. unfold exit_status. by rewrite Hmain.
Qed.

(** X12.  For a profile whose session and client can be made, and with
    well-formed listings, every service of [TAGGABLE_SERVICES] is checked,
    once and in the order of the list, with one listing each. *)
Theorem healthy_profile_checks_all_services profile_name w session w1
    tag_client w2 :
  listings_well_formed →
  new_session profile_name w = (Ok session, w1) →
  new_client session w1 = (Ok tag_client, w2) →
  services_checked (trace (process_aws_profile profile_name w))
  = TAGGABLE_SERVICES ∧
  listing_calls (trace (process_aws_profile profile_name w))
  = (λ _, tag_client) <$> TAGGABLE_SERVICES ∧
  printed (trace (process_aws_profile profile_name w))
  = SwitchingToProfile profile_name
    :: printed (trace (service_loop tag_client TAGGABLE_SERVICES w2)).
Proof.
  intros Hwf Hsession Hclient.
  destruct (service_loop_summary tag_client TAGGABLE_SERVICES w2 Hwf)
    as (Hres & Hchecked & Hlisted).
  assert (Hrun : process_aws_profile profile_name w
    = Outcome (Ok tt)
        (world (service_loop tag_client TAGGABLE_SERVICES w2))
        ([Print (SwitchingToProfile profile_name);
          Call (NewSession profile_name); Call (NewClient session)]
         ++ trace (service_loop tag_client TAGGABLE_SERVICES w2))).
  { unfold process_aws_profile, process_aws_profile_body, try_except, bind,
      call, print, and_then. simpl. rewrite Hsession. simpl.
    rewrite Hclient. simpl. by rewrite Hres. }
  rewrite Hrun. simpl. by rewrite Hchecked, Hlisted.
Qed.

(** X13.  Once the profiles are enumerated, the run enters each of them
    once, in the order the store gave them. *)
Theorem run_enters_every_profile w profiles :
  (available_profiles w).1 = Ok profiles →
  profiles_entered (trace (main w)) = profiles.
Proof.
  intros Hprofiles. unfold main. rewrite trace_bind.
  unfold profiles_entered. rewrite omap_app.
  unfold get_aws_profiles, call. simpl. rewrite Hprofiles.
  destruct profiles as [| p ps]; [done |].
  rewrite (for_each_omap _ id); [by rewrite list_fmap_id |].
  intros p' w' _. split; [apply process_aws_profile_returns |].
  apply process_aws_profile_enters.
Qed.

(** X14.  When the session or the client of a profile cannot be made, the
    profile costs no listing, no tag read and no tag write: the script
    prints the line of the handler the exception selects and moves on. *)
Theorem unusable_profile_touches_nothing profile_name w e :
  (new_session profile_name w).1 = Raise e ∨
  (∃ session,
     (new_session profile_name w).1 = Ok session ∧
     (new_client session (new_session profile_name w).2).1 = Raise e) →
  printed (trace (process_aws_profile profile_name w))
  = [SwitchingToProfile profile_name; profile_error_line profile_name e] ∧
  listing_calls (trace (process_aws_profile profile_name w)) = [] ∧
  read_calls (trace (process_aws_profile profile_name w)) = [] ∧
  write_calls (trace (process_aws_profile profile_name w)) = [].
Proof.
  unfold process_aws_profile, process_aws_profile_body, try_except, bind,
    call, print, and_then. simpl.
  destruct (new_session profile_name w) as [r w1]. simpl.
  intros [-> | (session & -> & Hclient)]; simpl; [done |].
  destruct (new_client session w1) as [r' w2]. simpl in *.
  by subst r'.
Qed.

End Run.

(** ** What can leave the loops *)

Section Escapes.
Context {W : Type} `{Provider W}.

Implicit Types (w : W) (client profile_name : string).

Lemma for_each_raises {A} (P : exn → Prop) (body : A → M W unit) xs :
  (∀ x w e, res (body x w) = Raise e → P e) →
  ∀ w e, res (for_each xs body w) = Raise e → P e.
Proof.
  intros Hbody. induction xs as [| x xs IH]; intros w e; [done |].
  simpl. unfold bind.
  destruct (res (body x w)) as [[] | e'] eqn:Hres; simpl.
  - apply IH.
  - intros [= <-]. by eapply Hbody.
Qed.

Lemma resource_loop_raises client resources w e :
  res (resource_loop client resources w) = Raise e →
  e = KeyError "ResourceARN".
Proof.
  revert w e. apply (for_each_raises (λ e, e = KeyError "ResourceARN")).
  intros resource w e.
  destruct (ResourceARN resource) as [resource_arn |] eqn:Harn.
  - rewrite (resource_round_run _ _ _ _ Harn).
    by rewrite check_and_add_tags_returns.
  - unfold resource_round, bind, lift. rewrite Harn. simpl. congruence.
Qed.

Lemma service_loop_raises client services w e :
  res (service_loop client services w) = Raise e →
  e = KeyError "ResourceARN".
Proof.
  revert w e. apply (for_each_raises (λ e, e = KeyError "ResourceARN")).
  intros service w e.
  unfold service_round, bind, print, and_then. simpl.
  destruct (get_resources_with_tags_cases client service w)
    as [(e' & w1 & _ & ->) | (pages & w1 & _ & ->)]; simpl; [done |].
  apply resource_loop_raises.
Qed.

(** X17.  The only exception that can leave the pass over the services is
    the [KeyError("ResourceARN")] of line 72, and it leaves it only when a
    listing returned a resource without that key: whatever a listing, a tag
    read or a tag write raises stays inside. *)
Theorem service_loop_raises_key_error_only client services w e :
  res (service_loop client services w) = Raise e →
  e = KeyError "ResourceARN" ∧ ¬ listings_well_formed.
Proof.
  intros Hraise. split; [by eapply service_loop_raises |].
  intros Hwf.
  destruct (service_loop_summary client services w Hwf) as [Hres _].
  congruence.
Qed.

(** X18.  The line "No credentials found" is printed only for the profile at
    hand and only when making its session or its client raised
    [NoCredentialsError]; the same exception raised later, by a listing or a
    tag call, is reported at the level of the service or of the resource. *)
Theorem no_credentials_line_origin profile_name w p :
  Print (NoCredentialsLine p) ∈ trace (process_aws_profile profile_name w) →
  p = profile_name ∧
  ((new_session profile_name w).1 = Raise NoCredentialsError ∨
   ∃ session,
     (new_session profile_name w).1 = Ok session ∧
     (new_client session (new_session profile_name w).2).1
     = Raise NoCredentialsError).
Proof.
  assert (Hlevel : ∀ t, Forall (λ ev, service_level ev = true) t →
                        Print (NoCredentialsLine p) ∉ t).
  { intros t Ht Hin. rewrite Forall_forall in Ht. by apply Ht in Hin. }
  assert (Hline : ∀ e, NoCredentialsLine p = profile_error_line profile_name e
                       → p = profile_name ∧ e = NoCredentialsError)
    by (by intros [] [= ->]).
  unfold process_aws_profile, process_aws_profile_body, try_except, bind,
    call, print, and_then. simpl.
  destruct (new_session profile_name w) as [[session | e] w1]; simpl.
  - destruct (new_client session w1) as [[tag_client | e] w2] eqn:Hclient;
      simpl.
    + pose proof (service_loop_level tag_client TAGGABLE_SERVICES w2) as Hsl.
      destruct (res (service_loop tag_client TAGGABLE_SERVICES w2))
        as [[] | e] eqn:Hres; simpl; intros Hin;
        repeat (apply elem_of_cons in Hin as [[=] | Hin]).
      * by apply Hlevel in Hin.
      * apply elem_of_app in Hin as [Hin | Hin]; [by apply Hlevel in Hin |].
        apply list_elem_of_singleton in Hin. injection Hin as Hin.
        apply service_loop_raises in Hres. subst e.
        by apply Hline in Hin as [_ ?].
    + intros Hin. repeat (apply elem_of_cons in Hin as [Heq | Hin];
                          [try discriminate |]);
        [| by apply elem_of_nil in Hin].
      injection Heq as Heq. apply Hline in Heq as [-> ->].
      split; [done |]. right. exists session. by rewrite Hclient.
  - intros Hin. repeat (apply elem_of_cons in Hin as [Heq | Hin];
                        [try discriminate |]);
      [| by apply elem_of_nil in Hin].
    injection Heq as Heq. apply Hline in Heq as [-> ->].
    split; [done |]. by left.
Qed.

End Escapes.

(** ** The further properties on the concrete providers *)

Section MoreExamples.
Import Sim Canned.

Lemma failed_read_writes_nothing_witness :
  check_and_add_tags "default" instance_arn flaky
  = Outcome (Ok tt) (get_resources "default" instance_arn flaky).2
      [Call (GetResources "default" instance_arn);
       Print (ErrorProcessingResource instance_arn
                (ClientError "AccessDeniedException"))].
Proof.
  apply (failed_read_writes_nothing (W := account)).
  vm_compute. reflexivity.
Defined.

Lemma untagged_resource_gets_all_witness :
  missing_tags ∅ = REQUIRED_TAGS ∧
  write_calls (trace (check_and_add_tags "default" logs_arn ill_formed))
  = [("default", logs_arn, tags_dict REQUIRED_TAGS)].
Proof.
  apply (untagged_resource_gets_all (W := canned) "default" logs_arn
           ill_formed {| ResourceTagMappingList := None |}).
  - reflexivity.
  - reflexivity.
Defined.

Lemma added_line_means_written_witness :
  instance_arn = instance_arn ∧ [("Owner", "CloudEng")] ≠ [] ∧
  ∃ existing,
    current_tags "default" instance_arn demo = Ok existing ∧
    [("Owner", "CloudEng")] = missing_tags existing ∧
    (tag_resources "default" instance_arn (tags_dict [("Owner", "CloudEng")])
       (get_resources "default" instance_arn demo).2).1 = Ok tt.
Proof.
  apply (added_line_means_written (W := account) "default" instance_arn demo).
  vm_compute. apply list_elem_of_further, list_elem_of_further,
    list_elem_of_here.
Defined.

Lemma missing_tags_by_keys_witness :
  missing_tags {["Owner" := "Payments"]}
  = missing_tags {["Owner" := "CloudEng"]}.
Proof.
  apply missing_tags_by_keys. by rewrite !dom_singleton_L.
Defined.

Lemma ill_formed_listing_ends_pass_witness :
  res (service_loop "default" ["ec2"; "s3"] ill_formed)
  = Raise (KeyError "ResourceARN") ∧
  services_checked (trace (service_loop "default" ["ec2"; "s3"] ill_formed))
  = ["ec2"] ∧
  read_calls (trace (service_loop "default" ["ec2"; "s3"] ill_formed))
  = (λ resource_arn, ("default", resource_arn))
      <$> arns [{| ResourceARN := Some logs_arn; Tags := None |}].
Proof.
  apply (ill_formed_listing_ends_pass (W := canned) "default" "ec2" ["s3"]
           ill_formed (canned_pages ill_formed) ill_formed
           [{| ResourceARN := Some logs_arn; Tags := None |}]
           {| ResourceARN := None; Tags := Some [] |}
           [{| ResourceARN := Some late_arn; Tags := None |}]).
  - reflexivity.
  - reflexivity.
  - repeat constructor. by eexists.
  - reflexivity.
Defined.

Lemma no_profiles_no_work_witness :
  main unconfigured
  = Outcome (Ok tt) (available_profiles unconfigured).2
      [Call AvailableProfiles; Print NoProfilesFound].
Proof. apply (no_profiles_no_work (W := account)). reflexivity. Defined.

Lemma enumeration_failure_escapes_witness :
  main broken_store
  = Outcome (Raise (ClientError "ConfigParseError"))
      (available_profiles broken_store).2 [Call AvailableProfiles] ∧
  exit_status (main broken_store) = 1.
Proof.
  apply (enumeration_failure_escapes (W := canned)). reflexivity.
Defined.

Lemma healthy_profile_checks_all_services_witness :
  services_checked (trace (process_aws_profile "default" demo))
  = TAGGABLE_SERVICES ∧
  listing_calls (trace (process_aws_profile "default" demo))
  = (λ _, "default") <$> TAGGABLE_SERVICES ∧
  printed (trace (process_aws_profile "default" demo))
  = SwitchingToProfile "default"
    :: printed (trace (service_loop "default" TAGGABLE_SERVICES demo)).
Proof.
  apply (healthy_profile_checks_all_services (W := account) "default" demo
           "default" demo "default" demo sim_listings_well_formed).
  - reflexivity.
  - reflexivity.
Defined.

Lemma run_enters_every_profile_witness :
  profiles_entered (trace (main throttled)) = ["default"; "ghost"; "audit"].
Proof.
  apply (run_enters_every_profile (W := account)). reflexivity.
Defined.

Lemma unusable_profile_touches_nothing_witness :
  printed (trace (process_aws_profile "ghost" throttled))
  = [SwitchingToProfile "ghost";
     profile_error_line "ghost" (ProfileNotFound "ghost")] ∧
  listing_calls (trace (process_aws_profile "ghost" throttled)) = [] ∧
  read_calls (trace (process_aws_profile "ghost" throttled)) = [] ∧
  write_calls (trace (process_aws_profile "ghost" throttled)) = [].
Proof.
  apply (unusable_profile_touches_nothing (W := account)).
  left. vm_compute. reflexivity.
Defined.

Lemma run_reads_before_writing_witness :
  ∃ t0,
    [Call AvailableProfiles; Print (SwitchingToProfile "default");
     Call (NewSession "default"); Call (NewClient "default");
     Print (CheckingResources "ec2"); Call (Paginate "default");
     Call (GetResources "default" logs_arn)]
    = t0 ++ [Call (GetResources "default" logs_arn)].
Proof.
  apply (run_reads_before_writing (W := canned) ill_formed _ "default"
           logs_arn (tags_dict REQUIRED_TAGS)
           [Print (AddedMissingTags REQUIRED_TAGS logs_arn);
            Print (UnexpectedErrorLine "default" (KeyError "ResourceARN"))]).
  vm_compute. reflexivity.
Defined.

Lemma service_loop_raises_key_error_only_witness :
  KeyError "ResourceARN" = KeyError "ResourceARN" ∧
  ¬ listings_well_formed (W := canned).
Proof.
  apply (service_loop_raises_key_error_only (W := canned) "default"
           ["ec2"; "s3"] ill_formed).
  vm_compute. reflexivity.
Defined.

Lemma no_credentials_line_origin_witness :
  "vault" = "vault" ∧
  ((new_session "vault"
      (Account ["vault"] [] ["vault"] [] [] [] [])).1
   = Raise NoCredentialsError ∨
   ∃ session,
     (new_session "vault" (Account ["vault"] [] ["vault"] [] [] [] [])).1
     = Ok session ∧
     (new_client session
        (new_session "vault"
           (Account ["vault"] [] ["vault"] [] [] [] [])).2).1
     = Raise NoCredentialsError).
Proof.
  apply (no_credentials_line_origin (W := account)).
  vm_compute. do 3 apply list_elem_of_further. apply list_elem_of_here.
Defined.

End MoreExamples.
